(** * pkg/authconfigmap: the aws-auth ConfigMap store

    A shallow embedding of [pkg/authconfigmap/authconfigmap.go], the package
    that edits the [mapRoles], [mapUsers] and [mapAccounts] entries of the
    aws-auth ConfigMap.  The source tree carries two revisions of the file:
    the one built on [MapIdentity] (a string ARN classified by [resource],
    [Role] and [User]) and the one built on [iam.Identity] and [iam.ARN].
    The parts the two revisions share textually ([New], [Save], the account
    operations) are embedded once; the identity operations are embedded once
    per revision, in [Module MapIdentityRev] and [Module IamRev].

    The command [get iamidentitymapping] of the source tree calls the
    [iam.Identity] revision, so the properties of listing, adding and
    removing identities are stated of that revision.  The [MapIdentity]
    revision encodes its records as structs and decodes them with its own
    [UnmarshalJSON] ([Module MapIdentityJSON]); what it writes it cannot read
    again, and its properties are stated of what it hands to the encoder. *)

From Stdlib Require Import Ascii String.
From stdpp Require Import base strings list gmap sorting.

Local Open Scope string_scope.
Local Open Scope list_scope.

(** ** strings.Split with a one-byte separator

    [strings.Split(s, ":")] returns the substrings between separators; a
    string without separator (also the empty one) yields one segment. *)

Fixpoint Split (sep : ascii) (s : string) : list string :=
  match s with
  | EmptyString => [EmptyString]
  | String c s' =>
      if Ascii.eqb c sep then EmptyString :: Split sep s'
      else match Split sep s' with
           | [] => [String c EmptyString]
           | p :: ps => String c p :: ps
           end
  end.

(** ** Errors

    The package returns plain Go [error] values.  [ErrWrap] and [ErrWrapf]
    are [errors.Wrap] and [errors.Wrapf] (the format and its one argument); [ErrAccountNotFound] and
    [ErrIdentityNotFound] are the two
    [fmt.Errorf("... not found in auth ConfigMap")] sites; [ErrCannotDetermine]
    is the [errors.Errorf] of [setIdentities].  [ErrYAML], [ErrIAM] and
    [ErrClient] stand for what the YAML library, package [pkg/iam] and the
    client return. *)

Inductive error : Type :=
  | ErrYAML (detail : string)
  | ErrWrap (cause : error) (message : string)
  | ErrWrapf (cause : error) (format arg : string)
  | ErrAccountNotFound (account : string)
  | ErrIdentityNotFound (arn : string)
  | ErrCannotDetermine (resource : string)
  | ErrIAM (detail : string)
  | ErrClient (detail : string).

Inductive result (A : Type) : Type :=
  | Ok (a : A)
  | Err (e : error).
Arguments Ok {A} a.
Arguments Err {A} e.

(** ** sigs.k8s.io/yaml

    The YAML library is outside the package; it is taken as an interface for
    the sequence types the package stores.  A Go nil slice and an empty one
    are both the empty list. *)

Class YAML (A : Type) : Type := {
  Marshal : list A → result string;
  Unmarshal : string → result (list A)
}.

(** The library does not give every value back.  [yaml.Marshal] goes
    through [json.Marshal], which writes a byte that begins no UTF-8 sequence
    as U+FFFD, so a string with such a byte is decoded as another string.
    [YAMLKeeps keeps] is the contract for the values the library keeps:
    decoding the empty document leaves the nil slice, a sequence of kept
    values is encoded and decodes to itself, and whatever the decoder hands
    out is a kept value.  Nothing is assumed of the encoding of other
    values. *)

Class YAMLKeeps (A : Type) `{!YAML A} (keeps : A → Prop) : Prop := {
  Unmarshal_nothing : Unmarshal "" = Ok [];
  Marshal_kept :
    ∀ l : list A, Forall keeps l → ∃ bs, Marshal l = Ok bs ∧ Unmarshal bs = Ok l;
  Unmarshal_kept : ∀ (bs : string) (l : list A), Unmarshal bs = Ok l → Forall keeps l
}.

(** ** corev1.ConfigMap, restricted to the fields the package reads *)

Record ObjectMetaT : Type := mkObjectMeta {
  Name : string;
  Namespace : string;
  UID : string
}.

(** [Data] is a Go map: [None] is the nil map. *)
Record ConfigMap : Type := mkConfigMap {
  cm_ObjectMeta : ObjectMetaT;
  Data : option (gmap string string)
}.

Definition ObjectName : string := "aws-auth".
Definition NamespaceSystem : string := "kube-system".
Definition ObjectNamespace : string := NamespaceSystem.
Definition rolesData : string := "mapRoles".
Definition usersData : string := "mapUsers".
Definition accountsData : string := "mapAccounts".

Definition ObjectMeta : ObjectMetaT :=
  {| Name := ObjectName; Namespace := ObjectNamespace; UID := "" |}.

(** ** v1.ConfigMapInterface

    The client talks to a remote system whose state has type [R].  As the
    generated typed client does, [Create] and [Update] hand back an allocated
    ConfigMap together with the error. *)

Record ConfigMapInterface (R : Type) : Type := mkClient {
  Create : ConfigMap → R → (ConfigMap * option error) * R;
  Update : ConfigMap → R → (ConfigMap * option error) * R
}.
Arguments Create {R} _ _ _.
Arguments Update {R} _ _ _.

Record AuthConfigMap (R : Type) : Type := mkAuthConfigMap {
  client : ConfigMapInterface R;
  cm : ConfigMap
}.
Arguments mkAuthConfigMap {R} _ _.
Arguments client {R} _.
Arguments cm {R} _.

(** What a method call leaves behind: the returned error and the receiver
    after the in-place updates, or a run-time panic (assignment to an entry
    of a nil map). *)
Inductive outcome (R : Type) : Type :=
  | Returns (err : option error) (a : AuthConfigMap R)
  | Panics.
Arguments Returns {R} err a.
Arguments Panics {R}.

Section Store.
Context {R : Type}.
Implicit Types a : AuthConfigMap R.

(** [a.cm.Data[key]]: a missing key, or a nil map, reads as the empty string. *)
Definition Data_at a (key : string) : string :=
  match Data (cm a) with
  | Some m => default "" (m !! key)
  | None => ""
  end.

(** [a.cm.Data[key] = v] *)
Definition Data_assign a (key v : string) : option (AuthConfigMap R) :=
  match Data (cm a) with
  | Some m =>
      Some (mkAuthConfigMap (client a)
              (mkConfigMap (cm_ObjectMeta (cm a)) (Some (<[key := v]> m))))
  | None => None
  end.

Definition New (c : ConfigMapInterface R) (cm0 : option ConfigMap)
  : AuthConfigMap R :=
  let cm1 :=
    match cm0 with
    | None => mkConfigMap ObjectMeta (Some ∅)
    | Some x => x
    end in
  let cm2 :=
    match Data cm1 with
    | None => mkConfigMap ObjectMeta (Some ∅)
    | Some _ => cm1
    end in
  mkAuthConfigMap c cm2.

Definition Save a (r : R) : outcome R * R :=
  if decide (UID (cm_ObjectMeta (cm a)) = "") then
    let '(cm', err, r') := Create (client a) (cm a) r in
    (Returns err (mkAuthConfigMap (client a) cm'), r')
  else
    let '(cm', err, r') := Update (client a) (cm a) r in
    (Returns err (mkAuthConfigMap (client a) cm'), r').
End Store.

(** ** k8s.io/apimachinery/pkg/util/sets: [NewString] and [List]

    A [sets.String] is a set of strings; [List] returns its members as a
    sorted slice.  Go compares strings bytewise, which is the lexicographic
    order on character codes of [String.le]. *)

Definition NewString (items : list string) : gset string := list_to_set items.
Definition List (s : gset string) : list string :=
  merge_sort String.le (elements s).

(** ** The account operations (the same text in both revisions) *)

Section Accounts.
Context {R : Type} `{!YAML string}.
Implicit Types a : AuthConfigMap R.

Definition accounts a : result (list string) :=
  match Unmarshal (Data_at a accountsData) with
  | Err e => Err (ErrWrap e "unmarshalling mapAccounts")
  | Ok l => Ok l
  end.

Definition setAccounts a (accs : list string) : outcome R :=
  match Marshal accs with
  | Err e => Returns (Some (ErrWrap e "marshalling mapAccounts")) a
  | Ok bs =>
      match Data_assign a accountsData bs with
      | Some a' => Returns None a'
      | None => Panics
      end
  end.

Definition AddAccount a (account : string) : outcome R :=
  match accounts a with
  | Err e => Returns (Some e) a
  | Ok accs =>
      let accs := accs ++ [account] in
      let accs := List (NewString accs) in
      setAccounts a accs
  end.

(** The [for _, acc := range accounts] loop of [RemoveAccount]. *)
Fixpoint RemoveAccount_loop (account : string) (accs newaccounts : list string)
    (found : bool) : list string * bool :=
  match accs with
  | [] => (newaccounts, found)
  | acc :: rest =>
      if decide (acc = account) then
        RemoveAccount_loop account rest newaccounts true
      else
        RemoveAccount_loop account rest (newaccounts ++ [acc]) found
  end.

Definition RemoveAccount a (account : string) : outcome R :=
  match accounts a with
  | Err e => Returns (Some e) a
  | Ok accs =>
      let '(newaccounts, found) := RemoveAccount_loop account accs [] false in
      if negb found then Returns (Some (ErrAccountNotFound account)) a
      else setAccounts a newaccounts
  end.
End Accounts.

(** ** Reading and writing the two identity keys

    [Identities] and the tail of [setIdentities] (from the comment
    "Update the corresponding keys" on) read the same in both revisions, up
    to the element type of the slices. *)

Section IdentityKeys.
Context {R : Type} {A : Type} `{!YAML A}.
Implicit Types a : AuthConfigMap R.

Definition Identities a : result (list A) :=
  match Unmarshal (Data_at a rolesData) with
  | Err e => Err (ErrWrapf e "unmarshalling %q" rolesData)
  | Ok roles =>
      match Unmarshal (Data_at a usersData) with
      | Err e => Err (ErrWrapf e "unmarshalling %q" usersData)
      | Ok users => Ok (roles ++ users)
      end
  end.

Definition update_keys a (roles users : list A) : outcome R :=
  match Marshal roles with
  | Err e => Returns (Some (ErrWrapf e "marshalling %q" rolesData)) a
  | Ok _roles =>
      match Data_assign a rolesData _roles with
      | None => Panics
      | Some a1 =>
          match Marshal users with
          | Err e => Returns (Some (ErrWrapf e "marshalling %q" usersData)) a1
          | Ok _users =>
              match Data_assign a1 usersData _users with
              | None => Panics
              | Some a2 => Returns None a2
              end
          end
      end
  end.
End IdentityKeys.

(** ** The revision built on [MapIdentity] *)

Module MapIdentityRev.

(** [iam.Identity], as the composite literal in [AddIdentity] fills it. *)
Record Identity : Type := mkIdentity {
  Username : string;
  Groups : list string
}.

Record MapIdentity : Type := mkMapIdentity {
  MapIdentity_Identity : Identity;
  ARN : string
}.

Definition resource (m : MapIdentity) : string :=
  let portions := Split ":" (ARN m) in
  if decide (length portions < 6) then ""
  else default "" (portions !! 5).

Definition Role (m : MapIdentity) : bool := bool_decide (resource m = "role").
Definition User (m : MapIdentity) : bool := bool_decide (resource m = "user").

Definition Get (rs : list MapIdentity) (arn : string) : list MapIdentity :=
  filter (λ r, ARN r = arn) rs.

Section Ops.
Context {R : Type} `{!YAML MapIdentity}.
Implicit Types a : AuthConfigMap R.

(** The classification loop of [setIdentities]: two independent tests. *)
Fixpoint setIdentities_loop (identities users roles : list MapIdentity)
  : list MapIdentity * list MapIdentity :=
  match identities with
  | [] => (users, roles)
  | identity :: rest =>
      let roles := if Role identity then roles ++ [identity] else roles in
      let users := if User identity then users ++ [identity] else users in
      setIdentities_loop rest users roles
  end.

Definition setIdentities a (identities : list MapIdentity) : outcome R :=
  let '(users, roles) := setIdentities_loop identities [] [] in
  update_keys a roles users.

Definition AddIdentity a (arn username : string) (groups : list string)
  : outcome R :=
  match Identities a with
  | Err e => Returns (Some e) a
  | Ok identities =>
      let identities :=
        identities ++ [mkMapIdentity (mkIdentity username groups) arn] in
      setIdentities a identities
  end.

(** The [for i, identity := range identities] loop of [RemoveIdentity]:
    [inl] is the early [return] from inside the loop, [inr] the value of
    [newidentities] when the loop runs to its end. *)
Fixpoint RemoveIdentity_loop a (arn : string) (all : bool)
    (identities : list MapIdentity) (i : nat)
    (rest newidentities : list MapIdentity)
  : outcome R + list MapIdentity :=
  match rest with
  | [] => inr newidentities
  | identity :: rest' =>
      if decide (ARN identity = arn) then
        if negb all then
          inl (setIdentities a (take i identities ++ drop (S i) identities))
        else RemoveIdentity_loop a arn all identities (S i) rest' newidentities
      else if all then
        RemoveIdentity_loop a arn all identities (S i) rest'
          (newidentities ++ [identity])
      else RemoveIdentity_loop a arn all identities (S i) rest' newidentities
  end.

Definition RemoveIdentity a (arn : string) (all : bool) : outcome R :=
  match Identities a with
  | Err e => Returns (Some e) a
  | Ok identities =>
      match RemoveIdentity_loop a arn all identities 0 identities [] with
      | inl o => o
      | inr newidentities =>
          if negb all then Returns (Some (ErrIdentityNotFound arn)) a
          else setIdentities a newidentities
      end
  end.
End Ops.

End MapIdentityRev.

(** ** The revision built on [iam.Identity] and [iam.ARN]

    Package [pkg/iam] is not part of the source tree; what this revision
    calls from it is the interface [IAM]. *)

Module IamRev.

Class IAM : Type := {
  ARN : Type;
  Identity : Type;
  Identity_ARN : Identity → result ARN;
  Identity_Valid : Identity → option error;
  ARN_Role : ARN → bool;
  ARN_User : ARN → bool;
  ARN_String : ARN → string;
  ARN_Resource : ARN → string
}.

Section Ops.
Context {R : Type} `{!IAM} `{!YAML Identity}.
Implicit Types a : AuthConfigMap R.

(** The classification loop of [setIdentities]: a [switch] with a
    [default] that returns an error. *)
Fixpoint setIdentities_loop (identities users roles : list Identity)
  : result (list Identity * list Identity) :=
  match identities with
  | [] => Ok (users, roles)
  | identity :: rest =>
      match Identity_ARN identity with
      | Err e => Err e
      | Ok arn =>
          if ARN_Role arn then
            setIdentities_loop rest users (roles ++ [identity])
          else if ARN_User arn then
            setIdentities_loop rest (users ++ [identity]) roles
          else Err (ErrCannotDetermine (ARN_Resource arn))
      end
  end.

Definition setIdentities a (identities : list Identity) : outcome R :=
  match setIdentities_loop identities [] [] with
  | Err e => Returns (Some e) a
  | Ok (users, roles) => update_keys a roles users
  end.

Definition AddIdentity a (identity : Identity) : outcome R :=
  match Identities a with
  | Err e => Returns (Some e) a
  | Ok identities =>
      match Identity_Valid identity with
      | Some e => Returns (Some e) a
      | None => setIdentities a (identities ++ [identity])
      end
  end.

Fixpoint RemoveIdentity_loop a (arn : ARN) (all : bool)
    (identities : list Identity) (i : nat)
    (rest newidentities : list Identity)
  : outcome R + list Identity :=
  match rest with
  | [] => inr newidentities
  | identity :: rest' =>
      match Identity_ARN identity with
      | Err e => inl (Returns (Some e) a)
      | Ok _arn =>
          if decide (ARN_String _arn = ARN_String arn) then
            if negb all then
              inl (setIdentities a
                     (take i identities ++ drop (S i) identities))
            else
              RemoveIdentity_loop a arn all identities (S i) rest'
                newidentities
          else if all then
            RemoveIdentity_loop a arn all identities (S i) rest'
              (newidentities ++ [identity])
          else
            RemoveIdentity_loop a arn all identities (S i) rest'
              newidentities
      end
  end.

Definition RemoveIdentity a (arn : ARN) (all : bool) : outcome R :=
  match Identities a with
  | Err e => Returns (Some e) a
  | Ok identities =>
      match RemoveIdentity_loop a arn all identities 0 identities [] with
      | inl o => o
      | inr newidentities =>
          if negb all then
            Returns (Some (ErrIdentityNotFound (ARN_String arn))) a
          else setIdentities a newidentities
      end
  end.
End Ops.

End IamRev.

(** ** Observing the client

    [recording c] behaves as [c] and appends every request to a log, so that
    which of [Create] and [Update] a [Save] issued can be read back. *)

Inductive call : Type :=
  | CallCreate (sent : ConfigMap)
  | CallUpdate (sent : ConfigMap).

Definition recording {R : Type} (c : ConfigMapInterface R)
  : ConfigMapInterface (R * list call) :=
  {| Create sent st :=
       let '(res, r') := Create c sent (fst st) in
       (res, (r', snd st ++ [CallCreate sent]));
     Update sent st :=
       let '(res, r') := Update c sent (fst st) in
       (res, (r', snd st ++ [CallUpdate sent])) |}.

(** A stand-in for the remote system, for evaluating the operations: it
    stamps a UID on what it creates and echoes what it updates. *)
Definition stamping : ConfigMapInterface unit :=
  {| Create sent r :=
       (mkConfigMap
          (mkObjectMeta (Name (cm_ObjectMeta sent)) (Namespace (cm_ObjectMeta sent))
             "18b9e60c-2057-11e7-8868-0eba8ef9df1a")
          (Data sent), None, r);
     Update sent r := (sent, None, r) |}.

(** ** The text of the reference codecs

    A length-prefixed text layout for strings and sequences.  The reference
    codecs below write and read it, so that the operations can be evaluated
    on concrete stores; the empty text reads as the empty sequence. *)

Module Wire.

Fixpoint put_nat (n : nat) : string :=
  match n with
  | O => "0"
  | S n' => String "1" (put_nat n')
  end.

Fixpoint get_nat (s : string) : option (nat * string) :=
  match s with
  | EmptyString => None
  | String c s' =>
      if Ascii.eqb c "1" then
        match get_nat s' with
        | Some (n, r) => Some (S n, r)
        | None => None
        end
      else if Ascii.eqb c "0" then Some (O, s')
      else None
  end.

Fixpoint split_at (n : nat) (s : string) : option (string * string) :=
  match n with
  | O => Some (EmptyString, s)
  | S n' =>
      match s with
      | EmptyString => None
      | String c s' =>
          match split_at n' s' with
          | Some (p, r) => Some (String c p, r)
          | None => None
          end
      end
  end.

Definition put_string (s : string) : string :=
  put_nat (String.length s) +:+ s.

Definition get_string (s : string) : option (string * string) :=
  match get_nat s with
  | Some (n, r) => split_at n r
  | None => None
  end.

Section Sequences.
Context {A : Type} (put : A → string) (get : string → option (A * string)).

Fixpoint put_items (l : list A) : string :=
  match l with
  | [] => EmptyString
  | x :: l' => put x +:+ put_items l'
  end.

Fixpoint get_items (n : nat) (s : string) : option (list A * string) :=
  match n with
  | O => Some ([], s)
  | S n' =>
      match get s with
      | Some (x, r) =>
          match get_items n' r with
          | Some (xs, r') => Some (x :: xs, r')
          | None => None
          end
      | None => None
      end
  end.

Definition put_list (l : list A) : string :=
  put_nat (length l) +:+ put_items l.

Definition get_list (s : string) : option (list A * string) :=
  match get_nat s with
  | Some (n, r) => get_items n r
  | None => None
  end.

Definition marshal (l : list A) : result string := Ok (put_list l).

Definition unmarshal (s : string) : result (list A) :=
  if decide (s = "") then Ok []
  else match get_list s with
       | Some (l, EmptyString) => Ok l
       | _ => Err (ErrYAML "cannot unmarshal")
       end.
End Sequences.

End Wire.

(** ** A model of package [pkg/iam] *)

Module IamModel.

(** Modelled from the spec: the parsed principal identifier of package
    [pkg/iam], which is absent from the source tree.  The spec describes
    it as the decomposition of a colon-delimited identifier of six or more
    segments. *)
Record PrincipalIdentifier : Type := mkPrincipal {
  portions : list string
}.

(** Modelled from the spec: [iam.Parse], absent from the source tree.
    "splits on [:]; fails with ParseError if fewer than six segments
    result". *)
Definition Parse (raw : string) : result PrincipalIdentifier :=
  let segs := Split ":" raw in
  if decide (length segs < 6) then Err (ErrIAM "fewer than six segments")
  else Ok (mkPrincipal segs).

Definition Resource (p : PrincipalIdentifier) : string :=
  default "" (portions p !! 5).

(** Modelled from the spec: the resource-type segment that classification
    inspects, absent from the source tree.  In
    [resource-type/resource[/qualifier]] it is what precedes the first
    slash; in [resource-type:resource] it is the whole sixth segment. *)
Definition ResourceType (p : PrincipalIdentifier) : string :=
  default "" (head (Split "/" (Resource p))).

Inductive Kind : Type := KindRole | KindUser | KindUnknown.

#[export] Instance Kind_eq_dec : EqDecision Kind.
Proof. solve_decision. Defined.

(** Modelled from the spec: [Classify], absent from the source tree.
    "returns Unknown if neither role nor user". *)
Definition Classify (p : PrincipalIdentifier) : Kind :=
  if decide (ResourceType p = "role") then KindRole
  else if decide (ResourceType p = "user") then KindUser
  else KindUnknown.

(** Modelled from the spec: [Format], the canonical string form, absent
    from the source tree. *)
Definition Format (p : PrincipalIdentifier) : string :=
  String.concat ":" (portions p).

(** Modelled from the spec: the identity record of package [pkg/iam],
    absent from the source tree: principal, username, groups. *)
Record IdentityRecord : Type := mkIdentityRecord {
  principal : string;
  username : string;
  groups : list string
}.

(** Modelled from the spec: validity of a record, absent from the source
    tree.  "Validity requires principal to parse and classify
    successfully." *)
Definition Valid (i : IdentityRecord) : option error :=
  match Parse (principal i) with
  | Err e => Some e
  | Ok p =>
      match Classify p with
      | KindUnknown => Some (ErrCannotDetermine (Resource p))
      | _ => None
      end
  end.

#[export] Instance iam : IamRev.IAM :=
  {| IamRev.ARN := PrincipalIdentifier;
     IamRev.Identity := IdentityRecord;
     IamRev.Identity_ARN i := Parse (principal i);
     IamRev.Identity_Valid := Valid;
     IamRev.ARN_Role p := bool_decide (Classify p = KindRole);
     IamRev.ARN_User p := bool_decide (Classify p = KindUser);
     IamRev.ARN_String := Format;
     IamRev.ARN_Resource := Resource |}.

Definition put_IdentityRecord (i : IdentityRecord) : string :=
  Wire.put_string (principal i) +:+ Wire.put_string (username i)
  +:+ Wire.put_list Wire.put_string (groups i).

Definition get_IdentityRecord (s : string) : option (IdentityRecord * string) :=
  match Wire.get_string s with
  | Some (p, r1) =>
      match Wire.get_string r1 with
      | Some (u, r2) =>
          match Wire.get_list Wire.get_string r2 with
          | Some (g, r3) => Some (mkIdentityRecord p u g, r3)
          | None => None
          end
      | None => None
      end
  | None => None
  end.

End IamModel.

(** ** The reference codecs: valid UTF-8 is kept, the rest coerced

    [json.Marshal] walks a string with [utf8.DecodeRuneInString] and writes
    every byte that begins no valid sequence as U+FFFD ([coerce]); the YAML
    reader refuses a document that is not valid UTF-8.  A reference codec
    coerces what it encodes and refuses to decode what coercion would change.
    The values it keeps are the ones coercion leaves [intact]. *)

Module Utf8.

Definition between (lo hi : N) (c : ascii) : bool :=
  ((lo <=? N_of_ascii c) && (N_of_ascii c <=? hi))%N.

(** The byte sequences [unicode/utf8] accepts, by their leading byte. *)
Definition two_bytes (a b : ascii) : bool :=
  between 194 223 a && between 128 191 b.

Definition three_bytes (a b c : ascii) : bool :=
  (between 224 224 a && between 160 191 b
   || between 225 236 a && between 128 191 b
   || between 237 237 a && between 128 159 b
   || between 238 239 a && between 128 191 b)
  && between 128 191 c.

Definition four_bytes (a b c d : ascii) : bool :=
  (between 240 240 a && between 144 191 b
   || between 241 243 a && between 128 191 b
   || between 244 244 a && between 128 143 b)
  && between 128 191 c && between 128 191 d.

(** U+FFFD in UTF-8. *)
Definition RuneError : string :=
  String "239" (String "191" (String "189" EmptyString)).

Fixpoint coerce (s : string) : string :=
  match s with
  | EmptyString => EmptyString
  | String a s1 =>
      if between 0 127 a then String a (coerce s1)
      else
        match s1 with
        | String b s2 =>
            if two_bytes a b then String a (String b (coerce s2))
            else
              match s2 with
              | String c s3 =>
                  if three_bytes a b c then
                    String a (String b (String c (coerce s3)))
                  else
                    match s3 with
                    | String d s4 =>
                        if four_bytes a b c d then
                          String a (String b (String c (String d (coerce s4))))
                        else RuneError +:+ coerce s1
                    | EmptyString => RuneError +:+ coerce s1
                    end
              | EmptyString => RuneError +:+ coerce s1
              end
        | EmptyString => RuneError
        end
  end.

Section Coercing.
Context {A : Type} `{!EqDecision A}
  (put : A → string) (get : string → option (A * string)) (coerced : A → A).

Definition intact (x : A) : Prop := coerced x = x.

#[local] Instance intact_dec (x : A) : Decision (intact x) :=
  decide (coerced x = x).

Definition coercing : YAML A :=
  {| Marshal l := Wire.marshal put (map coerced l);
     Unmarshal bs :=
       match Wire.unmarshal get bs with
       | Ok l =>
           if decide (Forall intact l) then Ok l
           else Err (ErrYAML "invalid UTF-8 octet")
       | Err e => Err e
       end |}.
End Coercing.

#[export] Instance yaml_string : YAML string :=
  coercing Wire.put_string Wire.get_string coerce.

#[export] Instance IdentityRecord_eq_dec : EqDecision IamModel.IdentityRecord.
Proof. solve_decision. Defined.

Definition coerce_record (i : IamModel.IdentityRecord) : IamModel.IdentityRecord :=
  IamModel.mkIdentityRecord (coerce (IamModel.principal i))
    (coerce (IamModel.username i)) (map coerce (IamModel.groups i)).

#[export] Instance yaml_IdentityRecord : YAML IamModel.IdentityRecord :=
  coercing IamModel.put_IdentityRecord IamModel.get_IdentityRecord coerce_record.

End Utf8.

(** ** Fetching the ConfigMap and the node-group operations

    [NewFromClientSet] asks the client set for the ConfigMap client of a
    namespace and calls its [Get].  [ConfigMaps] gives the [Create] and
    [Update] of that client and [ConfigMaps_Get] its [Get], which hands back
    a pointer that may be nil.  [kerr.IsNotFound], from the Kubernetes API
    machinery, is the parameter [IsNotFound]. *)

Record ClientSet (R : Type) : Type := mkClientSet {
  ConfigMaps : string → ConfigMapInterface R;
  ConfigMaps_Get :
    string → string → R → (option ConfigMap * option error) * R
}.
Arguments ConfigMaps {R} _ _.
Arguments ConfigMaps_Get {R} _ _ _ _.

(** [api.NodeGroup], restricted to [Name] and [IAM.InstanceRoleARN]. *)
Record NodeGroup : Type := mkNodeGroup {
  NodeGroup_Name : string;
  InstanceRoleARN : string
}.

Definition GroupMasters : string := "system:masters".
Definition RoleNodeGroupUsername : string := "system:node:{{EC2PrivateDNSName}}".
Definition RoleNodeGroupGroups : list string :=
  ["system:bootstrappers"; "system:nodes"].

(** The errors of the node-group operations: those the package passes on or
    wraps, and the one [errors.New] of [RemoveNodeGroup]. *)
Inductive failure : Type :=
  | Failed (e : error)
  | FailedNew (message : string).

(** What a function that returns only an [error] leaves behind. *)
Inductive completion : Type :=
  | Completed (err : option failure)
  | Panicked.

Section Fetch.
Context {R : Type} (IsNotFound : error → bool).

Definition NewFromClientSet (clientSet : ClientSet R) (r : R)
  : result (AuthConfigMap R) * R :=
  let client := ConfigMaps clientSet ObjectNamespace in
  let '(cm, err, r') := ConfigMaps_Get clientSet ObjectNamespace ObjectName r in
  match err with
  | Some e =>
      if negb (IsNotFound e) then (Err (ErrWrap e "getting auth ConfigMap"), r')
      else (Ok (New client cm), r')
  | None => (Ok (New client cm), r')
  end.

(** The two steps every node-group operation ends with: the mutation's
    outcome is checked, then [Save] is called and its error wrapped. *)
Definition save_after (o : outcome R) (mutating saving : string) (r : R)
  : completion * R :=
  match o with
  | Panics => (Panicked, r)
  | Returns (Some e) _ => (Completed (Some (Failed (ErrWrap e mutating))), r)
  | Returns None acm =>
      match Save acm r with
      | (Panics, r') => (Panicked, r')
      | (Returns (Some e) _, r') =>
          (Completed (Some (Failed (ErrWrap e saving))), r')
      | (Returns None _, r') => (Completed None, r')
      end
  end.
End Fetch.

Module MapIdentityCalls.
Import MapIdentityRev.

Section Calls.
Context {R : Type} `{!YAML MapIdentity} (IsNotFound : error → bool).

Definition AddNodeGroup (clientSet : ClientSet R) (ng : NodeGroup) (r : R)
  : completion * R :=
  match NewFromClientSet IsNotFound clientSet r with
  | (Err e, r1) => (Completed (Some (Failed e)), r1)
  | (Ok acm, r1) =>
      save_after
        (AddIdentity acm (InstanceRoleARN ng) RoleNodeGroupUsername
           RoleNodeGroupGroups)
        "adding nodegroup to auth ConfigMap" "saving auth ConfigMap" r1
  end.

Definition RemoveNodeGroup (clientSet : ClientSet R) (ng : NodeGroup) (r : R)
  : completion * R :=
  let arn := InstanceRoleARN ng in
  if decide (arn = "") then
    (Completed (Some (FailedNew "nodegroup instance role ARN is not set")), r)
  else
    match NewFromClientSet IsNotFound clientSet r with
    | (Err e, r1) => (Completed (Some (Failed e)), r1)
    | (Ok acm, r1) =>
        save_after (RemoveIdentity acm arn false)
          "removing nodegroup from auth ConfigMap"
          "updating auth ConfigMap after removing role" r1
    end.
End Calls.

End MapIdentityCalls.

Module IamCalls.
Import IamRev.

(** [iam.Parse] and [iam.NewIdentity], which only the node-group operations
    call. *)
Class IAMConstructors `{!IAM} : Type := {
  Parse : string → result ARN;
  NewIdentity : ARN → string → list string → result Identity
}.

Section Calls.
Context {R : Type} `{!IAM} `{!IAMConstructors} `{!YAML Identity}
  (IsNotFound : error → bool).

Definition AddNodeGroup (clientSet : ClientSet R) (ng : NodeGroup) (r : R)
  : completion * R :=
  match NewFromClientSet IsNotFound clientSet r with
  | (Err e, r1) => (Completed (Some (Failed e)), r1)
  | (Ok acm, r1) =>
      match Parse (InstanceRoleARN ng) with
      | Err e =>
          (Completed
             (Some (Failed (ErrWrap e "parsing nodegroup instance role ARN"))),
           r1)
      | Ok arn =>
          match NewIdentity arn RoleNodeGroupUsername RoleNodeGroupGroups with
          | Err e => (Completed (Some (Failed e)), r1)
          | Ok ident =>
              save_after (AddIdentity acm ident)
                "adding nodegroup to auth ConfigMap" "saving auth ConfigMap" r1
          end
      end
  end.

Definition RemoveNodeGroup (clientSet : ClientSet R) (ng : NodeGroup) (r : R)
  : completion * R :=
  match Parse (InstanceRoleARN ng) with
  | Err e =>
      (Completed
         (Some (Failed (ErrWrap e "nodegroup instance role ARN is invalid"))),
       r)
  | Ok arn =>
      match NewFromClientSet IsNotFound clientSet r with
      | (Err e, r1) => (Completed (Some (Failed e)), r1)
      | (Ok acm, r1) =>
          save_after (RemoveIdentity acm arn false)
            "removing nodegroup from auth ConfigMap"
            "updating auth ConfigMap after removing role" r1
      end
  end.
End Calls.

End IamCalls.

(** [recording_set clientSet] logs the writes of a client set as [recording]
    does for one client; [Get] is passed through. *)
Definition recording_set {R : Type} (clientSet : ClientSet R)
  : ClientSet (R * list call) :=
  {| ConfigMaps ns := recording (ConfigMaps clientSet ns);
     ConfigMaps_Get ns name st :=
       let '(res, r') := ConfigMaps_Get clientSet ns name (fst st) in
       (res, (r', snd st)) |}.

(** A stand-in for a cluster that holds at most the one ConfigMap: [Get]
    answers what is held or a not-found error, [Create] stamps a UID as
    [stamping] does and holds the result, [Update] holds what it is sent. *)
Definition not_found : error := ErrClient "not found".

Definition is_not_found (e : error) : bool :=
  match e with
  | ErrClient detail => bool_decide (detail = "not found")
  | _ => false
  end.

Definition cluster : ClientSet (option ConfigMap) :=
  {| ConfigMaps ns :=
       {| Create sent r :=
            let '(made, err, _) := Create stamping sent tt in
            (made, err, Some made);
          Update sent r := (sent, None, Some sent) |};
     ConfigMaps_Get ns name r :=
       match r with
       | Some held => (Some held, None, r)
       | None => (None, Some not_found, r)
       end |}.

(** ** How the [MapIdentity] revision is encoded and decoded

    [yaml.Unmarshal] turns the document into JSON and lets [encoding/json]
    fill the slice: for every element of the JSON array it calls the
    [UnmarshalJSON] of [MapIdentity] on a zero value, and the first error ends
    the decoding.  [yaml.Marshal] lets [encoding/json] encode the slice; the
    revision declares no [MarshalJSON], so every record is encoded as a
    struct.  What [encoding/json] and the YAML library do on the way is the
    interface [JSON]:
    - [Unmarshal_keys data] is [json.Unmarshal(data, &outer_keys)] into an
      empty [map[string]json.RawMessage];
    - [Unmarshal_string arn old] is [json.Unmarshal(arn, &m.ARN)], the field
      holding [old] before;
    - [Unmarshal_Identity data old] is [json.Unmarshal(data, &m.Identity)];
    - [Marshal_struct m] is the encoding of the struct [m];
    - [unmarshaling_JSON] is the error [yaml.Unmarshal] makes of the error of
      an element. *)

Module MapIdentityJSON.
Import MapIdentityRev.

Class JSON : Type := {
  RawMessage : Type;
  Unmarshal_keys : RawMessage → result (gmap string RawMessage);
  Unmarshal_string : RawMessage → string → result string;
  Unmarshal_Identity : RawMessage → Identity → result Identity;
  Marshal_struct : MapIdentity → RawMessage;
  unmarshaling_JSON : failure → error
}.

Section Decoding.
Context `{!JSON}.

(** The method has a pointer receiver: [inr] is the receiver after a call
    that returned no error.  After an error the receiver is not looked at
    ([encoding/json] gives up the whole slice). *)
Definition UnmarshalJSON (m : MapIdentity) (data : RawMessage)
  : failure + MapIdentity :=
  match Unmarshal_keys data with
  | Err err => inl (Failed err)
  | Ok outer_keys =>
      let found :=
        match outer_keys !! "rolearn" with
        | Some arn => Some arn
        | None => outer_keys !! "userarn"
        end in
      match found with
      | None => inl (FailedNew "missing arn")
      | Some arn =>
          match Unmarshal_string arn (ARN m) with
          | Err err => inl (Failed err)
          | Ok decoded =>
              match Unmarshal_Identity data (MapIdentity_Identity m) with
              | Err err => inl (Failed err)
              | Ok ident => inr (mkMapIdentity ident decoded)
              end
          end
      end
  end.

(** The zero value of [MapIdentity]. *)
Definition zero : MapIdentity := mkMapIdentity (mkIdentity "" []) "".

(** [encoding/json] filling a [MapIdentities] from the elements of an
    array. *)
Fixpoint Unmarshal_elements (elements : list RawMessage)
  : failure + list MapIdentity :=
  match elements with
  | [] => inr []
  | data :: rest =>
      match UnmarshalJSON zero data with
      | inl f => inl f
      | inr m =>
          match Unmarshal_elements rest with
          | inl f => inl f
          | inr l => inr (m :: l)
          end
      end
  end.

(** [yaml.Marshal] and [yaml.Unmarshal] at type [MapIdentities], given what
    the library does with sequences of JSON messages. *)
Definition yaml_MapIdentity `{!YAML RawMessage} : YAML MapIdentity :=
  {| Marshal l := Marshal (map Marshal_struct l);
     Unmarshal bs :=
       match Unmarshal (A:=RawMessage) bs with
       | Err err => Err err
       | Ok elements =>
           match Unmarshal_elements elements with
           | inl f => Err (unmarshaling_JSON f)
           | inr l => Ok l
           end
       end |}.
End Decoding.

End MapIdentityJSON.

(** ** A reference implementation of [JSON]

    JSON messages limited to what the records hold: strings, sequences of
    strings, and objects of such values; and their sequences in the text
    layout of [Wire].  As [encoding/json] does, the encoding of a struct
    holds its strings coerced to valid UTF-8, and so does the codec of the
    messages. *)

Module JSONWire.
Import MapIdentityRev MapIdentityJSON.

Inductive value : Type :=
  | VString (s : string)
  | VStrings (l : list string).

Inductive raw : Type :=
  | RValue (v : value)
  | RObject (fields : list (string * value)).

#[export] Instance value_eq_dec : EqDecision value.
Proof. solve_decision. Defined.

#[export] Instance raw_eq_dec : EqDecision raw.
Proof. solve_decision. Defined.

Definition coerce_value (v : value) : value :=
  match v with
  | VString s => VString (Utf8.coerce s)
  | VStrings l => VStrings (map Utf8.coerce l)
  end.

Definition coerce_raw (d : raw) : raw :=
  match d with
  | RValue v => RValue (coerce_value v)
  | RObject fields =>
      RObject (map (λ kv, (Utf8.coerce kv.1, coerce_value kv.2)) fields)
  end.

(** A JSON object read into a Go map: of two fields with one name the
    later one stays. *)
Definition keys_of (fields : list (string * value)) : gmap string raw :=
  list_to_map (reverse (map (λ kv, (kv.1, RValue kv.2)) fields)).

Definition field_string (fields : list (string * value)) (key old : string)
  : result string :=
  match keys_of fields !! key with
  | None => Ok old
  | Some (RValue (VString s)) => Ok s
  | Some _ => Err (ErrYAML "json: cannot unmarshal into string")
  end.

Definition field_strings (fields : list (string * value)) (key : string)
    (old : list string) : result (list string) :=
  match keys_of fields !! key with
  | None => Ok old
  | Some (RValue (VStrings l)) => Ok l
  | Some _ => Err (ErrYAML "json: cannot unmarshal into []string")
  end.

(** Modelled from the spec: the names under which package [pkg/iam], absent
    from the source tree, has [encoding/json] write and read the two fields
    of [iam.Identity].  The spec gives the record as "rolearn, username,
    groups".  The field [ARN] of [MapIdentity] has no tag and goes under its
    own name. *)
#[export] Instance json : JSON :=
  {| RawMessage := raw;
     Unmarshal_keys data :=
       match data with
       | RObject fields => Ok (keys_of fields)
       | RValue _ => Err (ErrYAML "json: cannot unmarshal into map")
       end;
     Unmarshal_string data old :=
       match data with
       | RValue (VString s) => Ok s
       | _ => Err (ErrYAML "json: cannot unmarshal into string")
       end;
     Unmarshal_Identity data old :=
       match data with
       | RObject fields =>
           match field_string fields "username" (Username old) with
           | Err err => Err err
           | Ok username =>
               match field_strings fields "groups" (Groups old) with
               | Err err => Err err
               | Ok groups => Ok (mkIdentity username groups)
               end
           end
       | RValue _ => Err (ErrYAML "json: cannot unmarshal into struct")
       end;
     Marshal_struct m :=
       coerce_raw
         (RObject [("username", VString (Username (MapIdentity_Identity m)));
                   ("groups", VStrings (Groups (MapIdentity_Identity m)));
                   ("ARN", VString (ARN m))]);
     unmarshaling_JSON f :=
       match f with
       | Failed err => ErrWrap err "error unmarshaling JSON"
       | FailedNew message => ErrYAML ("error unmarshaling JSON: " +:+ message)
       end |}.

Definition put_value (v : value) : string :=
  match v with
  | VString s => String "s" (Wire.put_string s)
  | VStrings l => String "l" (Wire.put_list Wire.put_string l)
  end.

Definition get_value (s : string) : option (value * string) :=
  match s with
  | EmptyString => None
  | String c r =>
      if Ascii.eqb c "s" then
        match Wire.get_string r with
        | Some (x, r') => Some (VString x, r')
        | None => None
        end
      else if Ascii.eqb c "l" then
        match Wire.get_list Wire.get_string r with
        | Some (l, r') => Some (VStrings l, r')
        | None => None
        end
      else None
  end.

Definition put_field (kv : string * value) : string :=
  Wire.put_string kv.1 +:+ put_value kv.2.

Definition get_field (s : string) : option ((string * value) * string) :=
  match Wire.get_string s with
  | Some (k, r) =>
      match get_value r with
      | Some (v, r') => Some ((k, v), r')
      | None => None
      end
  | None => None
  end.

Definition put_raw (d : raw) : string :=
  match d with
  | RValue v => String "v" (put_value v)
  | RObject fields => String "o" (Wire.put_list put_field fields)
  end.

Definition get_raw (s : string) : option (raw * string) :=
  match s with
  | EmptyString => None
  | String c r =>
      if Ascii.eqb c "v" then
        match get_value r with
        | Some (v, r') => Some (RValue v, r')
        | None => None
        end
      else if Ascii.eqb c "o" then
        match Wire.get_list get_field r with
        | Some (fields, r') => Some (RObject fields, r')
        | None => None
        end
      else None
  end.

#[export] Instance yaml_raw : YAML raw :=
  Utf8.coercing put_raw get_raw coerce_raw.

(** [yaml.Marshal] and [yaml.Unmarshal] of the [MapIdentity] revision, on
    this implementation of [JSON]. *)
#[export] Instance encoded : YAML MapIdentity :=
  yaml_MapIdentity (H := json) (YAML0 := yaml_raw).

(** The record as the aws-auth ConfigMap holds it: the ARN under [rolearn]
    or [userarn]. *)
Definition mapping (key : string) (m : MapIdentity) : raw :=
  RObject [(key, VString (ARN m));
           ("username", VString (Username (MapIdentity_Identity m)));
           ("groups", VStrings (Groups (MapIdentity_Identity m)))].

(** A store whose keys hold such records, and accounts. *)
Definition listing (roles users : list MapIdentity) (accs : list string)
  : AuthConfigMap unit :=
  mkAuthConfigMap stamping
    (mkConfigMap ObjectMeta
       (Some (<[accountsData := Wire.put_list Wire.put_string accs]>
                (<[usersData := Wire.put_list put_raw
                                  (map (mapping "userarn") users)]>
                   (<[rolesData := Wire.put_list put_raw
                                     (map (mapping "rolearn") roles)]> ∅))))).

End JSONWire.

(** * Properties *)

(** ** The Data map *)

Section StoreFacts.
Context {R : Type}.
Implicit Types a : AuthConfigMap R.

Lemma Data_assign_is_Some a key v :
  Data (cm a) ≠ None → ∃ a', Data_assign a key v = Some a'.
Proof.
  destruct a as [c [meta [m|]]]; simpl; [eauto | done].
Qed.

Lemma Data_at_assign_eq a a' key v :
  Data_assign a key v = Some a' → Data_at a' key = v.
Proof.
  destruct a as [c [meta [m|]]]; unfold Data_assign, Data_at; simpl;
    intros [= <-]; simpl.
  by rewrite lookup_insert_eq.
Qed.

Lemma Data_at_assign_ne a a' key key' v :
  Data_assign a key v = Some a' → key ≠ key' →
  Data_at a' key' = Data_at a key'.
Proof.
  destruct a as [c [meta [m|]]]; unfold Data_assign, Data_at; simpl;
    intros [= <-] Hne; simpl.
  by rewrite lookup_insert_ne.
Qed.

Lemma Data_assign_frame a a' key v :
  Data_assign a key v = Some a' →
  client a' = client a ∧ cm_ObjectMeta (cm a') = cm_ObjectMeta (cm a)
  ∧ Data (cm a') ≠ None.
Proof.
  destruct a as [c [meta [m|]]]; unfold Data_assign; simpl;
    intros [= <-]; simpl; done.
Qed.

Lemma Data_assign_twice a a' key v :
  Data_assign a key v = Some a' → Data_assign a' key v = Some a'.
Proof.
  destruct a as [c [meta [m|]]]; unfold Data_assign; simpl;
    intros [= <-]; simpl.
  by rewrite insert_insert_eq.
Qed.
End StoreFacts.

(** ** sets.String *)

Lemma List_elem_of (s : gset string) (x : string) : x ∈ List s ↔ x ∈ s.
Proof.
  unfold List. rewrite merge_sort_Permutation. apply elem_of_elements.
Qed.

Lemma List_NoDup (s : gset string) : NoDup (List s).
Proof.
  unfold List. rewrite merge_sort_Permutation. apply NoDup_elements.
Qed.

Lemma List_sorted (s : gset string) : StronglySorted String.le (List s).
Proof. unfold List. apply StronglySorted_merge_sort; apply _. Qed.

Lemma List_NewString_elem_of (l : list string) (x : string) :
  x ∈ List (NewString l) ↔ x ∈ l.
Proof. rewrite List_elem_of. unfold NewString. apply elem_of_list_to_set. Qed.

(** A sorted list without duplicates is what [List] returns for its own
    members: the sorted slice of a set is determined by the set. *)
Lemma List_canonical (l : list string) (s : gset string) :
  StronglySorted String.le l → NoDup l → (∀ x, x ∈ l ↔ x ∈ s) → List s = l.
Proof.
  intros Hs Hn Hm.
  apply (StronglySorted_unique String.le); [apply List_sorted | done |].
  apply NoDup_Permutation; [apply List_NoDup | done |].
  intros x. rewrite List_elem_of. by rewrite Hm.
Qed.

Lemma List_NewString_id (l : list string) :
  StronglySorted String.le l → NoDup l → List (NewString l) = l.
Proof.
  intros Hs Hn. apply List_canonical; [done..|].
  intros x. unfold NewString. by rewrite elem_of_list_to_set.
Qed.

(** ** Accounts *)

(** The loop of [RemoveAccount] drops every occurrence of the account and
    reports whether there was one. *)
Lemma RemoveAccount_loop_spec account accs newaccounts found :
  RemoveAccount_loop account accs newaccounts found
  = (newaccounts ++ filter (λ acc, acc ≠ account) accs,
     found || bool_decide (account ∈ accs)).
Proof.
  revert newaccounts found.
  induction accs as [|acc rest IH]; intros newaccounts found;
    cbn [RemoveAccount_loop].
  - rewrite filter_nil, app_nil_r. f_equal.
    rewrite bool_decide_eq_false_2; [by rewrite orb_false_r | apply not_elem_of_nil].
  - destruct (decide (acc = account)) as [Heq|Hne].
    + rewrite Heq. rewrite IH. rewrite filter_cons_False by naive_solver.
      f_equal. rewrite (bool_decide_eq_true_2 (account ∈ account :: rest))
        by (apply elem_of_cons; by left).
      by rewrite orb_true_r.
    + rewrite IH. rewrite filter_cons_True by done.
      rewrite <- app_assoc. f_equal. f_equal.
      apply bool_decide_ext. rewrite elem_of_cons.
      split; [by right | intros [E|E]; [congruence | done]].
Qed.

(** A codec that gives every sequence back satisfies the contract with every
    value kept, so what is proved under the contract holds of such a codec
    for all values. *)
Lemma exact_codec_keeps_all {A : Type} `{!YAML A} :
  Unmarshal (A:=A) "" = Ok [] →
  (∀ l : list A, ∃ bs, Marshal l = Ok bs ∧ Unmarshal bs = Ok l) →
  YAMLKeeps A (λ _, True).
Proof.
  intros Hempty Hback. split; [exact Hempty | |].
  - intros l _. apply Hback.
  - intros bs l _. by apply Forall_true.
Qed.

(** The account key under the contract of kept values: what was decoded can
    be encoded again, and so can a kept account of the caller. *)
Section KeptAccountFacts.
Context {R : Type} `{!YAML string} (keeps : string → Prop)
  `{!YAMLKeeps string keeps}.
Implicit Types a : AuthConfigMap R.

Lemma accounts_kept a stored : accounts a = Ok stored → Forall keeps stored.
Proof.
  unfold accounts.
  destruct (Unmarshal (Data_at a accountsData)) as [l|e] eqn:Hl; [|done].
  intros [= <-]. by eapply Unmarshal_kept.
Qed.

Lemma setAccounts_kept a accs :
  Data (cm a) ≠ None → Forall keeps accs →
  ∃ a', setAccounts a accs = Returns None a' ∧ accounts a' = Ok accs
        ∧ Data (cm a') ≠ None
        ∧ setAccounts a' accs = Returns None a'.
Proof.
  intros Hd Hk. unfold setAccounts, accounts.
  destruct (Marshal_kept accs Hk) as (bs & -> & Hbs).
  destruct (Data_assign_is_Some a accountsData bs Hd) as [a' Ha'].
  rewrite Ha'. exists a'. split; [done|].
  rewrite (Data_at_assign_eq _ _ _ _ Ha'), Hbs.
  split; [done|]. split; [by apply (Data_assign_frame _ _ _ _ Ha')|].
  by rewrite (Data_assign_twice _ _ _ _ Ha').
Qed.

Lemma List_NewString_kept (stored : list string) (account : string) :
  Forall keeps stored → keeps account →
  Forall keeps (List (NewString (stored ++ [account]))).
Proof.
  intros Hs Ha. apply Forall_forall. intros x Hx.
  apply List_NewString_elem_of, elem_of_app in Hx as [Hx|Hx].
  - by apply (proj1 (Forall_forall _ _) Hs).
  - apply list_elem_of_singleton in Hx. by subst x.
Qed.

Lemma AddAccount_kept a account stored :
  Data (cm a) ≠ None → accounts a = Ok stored → keeps account →
  ∃ a', AddAccount a account = Returns None a'
        ∧ accounts a' = Ok (List (NewString (stored ++ [account])))
        ∧ Data (cm a') ≠ None.
Proof.
  intros Hd Hacc Hk. unfold AddAccount. rewrite Hacc. cbv zeta.
  destruct (setAccounts_kept a (List (NewString (stored ++ [account]))) Hd)
    as (a' & Hrun & Hacc' & Hd' & _).
  { apply List_NewString_kept; [by eapply accounts_kept | done]. }
  by exists a'.
Qed.
End KeptAccountFacts.

(** ** Lists *)

Section ListFacts.
Context {A : Type}.
Implicit Types l k : list A.

Lemma Forall_sublist (P : A → Prop) l k :
  l `sublist_of` k → Forall P k → Forall P l.
Proof.
  induction 1 as [|x l1 l2 _ IH|x l1 l2 _ IH]; intros HP; [done|..].
  - apply Forall_cons in HP as [Hx HP].
    apply Forall_cons. split; [done | by apply IH].
  - apply Forall_cons in HP as [_ HP]. by apply IH.
Qed.

Lemma filter_all (P : A → Prop) `{!∀ x, Decision (P x)} l :
  Forall P l → filter P l = l.
Proof.
  induction 1 as [|x l Hx _ IH]; [done|].
  rewrite filter_cons_True by done. by rewrite IH.
Qed.

Lemma Forall_filter_self (P : A → Prop) `{!∀ x, Decision (P x)} l :
  Forall P (filter P l).
Proof.
  apply Forall_forall. intros x Hx.
  by apply list_elem_of_filter in Hx as [? _].
Qed.

Lemma filter_none (P : A → Prop) `{!∀ x, Decision (P x)} l :
  Forall (λ x, ¬ P x) l → filter P l = [].
Proof.
  induction 1 as [|x l Hx _ IH]; [done|].
  by rewrite filter_cons_False.
Qed.

(** A list cut out of "all the [P], then all the [Q]" is put back in the
    same order by filing its [P] first and its [Q] second. *)
Lemma refile (P Q : A → Prop) `{!∀ x, Decision (P x)} `{!∀ x, Decision (Q x)}
    l roles users :
  (∀ x, P x → Q x → False) →
  Forall P roles → Forall Q users →
  l `sublist_of` roles ++ users →
  filter P l ++ filter Q l = l.
Proof.
  intros Hdisj HP HQ Hsub.
  apply sublist_app_r in Hsub as (l1 & l2 & -> & H1 & H2).
  pose proof (Forall_sublist P _ _ H1 HP) as HP1.
  pose proof (Forall_sublist Q _ _ H2 HQ) as HQ2.
  rewrite !filter_app.
  rewrite (filter_all P l1 HP1), (filter_all Q l2 HQ2).
  rewrite (filter_none P l2), (filter_none Q l1).
  - by rewrite app_nil_r.
  - eapply Forall_impl; [exact HP1|]. intros x Hx Hq. by eapply Hdisj.
  - eapply Forall_impl; [exact HQ2|]. intros x Hx Hp. by eapply Hdisj.
Qed.

Lemma cut_middle l1 x l2 :
  take (length l1) (l1 ++ x :: l2) ++ drop (S (length l1)) (l1 ++ x :: l2)
  = l1 ++ l2.
Proof.
  rewrite take_app_length.
  replace (S (length l1)) with (length l1 + 1) by lia.
  by rewrite drop_app_add.
Qed.

Lemma StronglySorted_sublist (Rel : relation A) l k :
  l `sublist_of` k → StronglySorted Rel k → StronglySorted Rel l.
Proof.
  induction 1 as [|x l1 l2 Hsub IH|x l1 l2 _ IH]; intros Hs; [done|..].
  - apply StronglySorted_cons in Hs as [Hx Hs].
    apply StronglySorted_cons. split; [|by apply IH].
    by apply (Forall_sublist _ _ _ Hsub).
  - apply StronglySorted_cons in Hs as [_ Hs]. by apply IH.
Qed.

End ListFacts.

(** ** The identity keys *)

Section IdentityKeyFacts.
Context {R : Type} {A : Type} `{!YAML A}.
Implicit Types a : AuthConfigMap R.

(** The roles key of [a] decodes to [roles] and the users key to [users]. *)
Definition stores a (roles users : list A) : Prop :=
  Unmarshal (Data_at a rolesData) = Ok roles
  ∧ Unmarshal (Data_at a usersData) = Ok users.

Lemma Identities_stores a roles users :
  stores a roles users → Identities a = Ok (roles ++ users).
Proof. intros [Hr Hu]. unfold Identities. by rewrite Hr, Hu. Qed.

End IdentityKeyFacts.

(** What [update_keys] leaves in the two keys, whatever the codec does. *)
Section WrittenKeys.
Context {R : Type} {A : Type} `{!YAML A}.
Implicit Types a : AuthConfigMap R.

(** The two keys of [a] hold the encodings of [roles] and [users]: these are
    the lists that were handed to [yaml.Marshal]. *)
Definition written a (roles users : list A) : Prop :=
  Marshal roles = Ok (Data_at a rolesData)
  ∧ Marshal users = Ok (Data_at a usersData).

Lemma update_keys_encoded a roles users br bu :
  Data (cm a) ≠ None → Marshal roles = Ok br → Marshal users = Ok bu →
  ∃ a', update_keys a roles users = Returns None a'
        ∧ Data_at a' rolesData = br ∧ Data_at a' usersData = bu
        ∧ Data_at a' accountsData = Data_at a accountsData
        ∧ client a' = client a
        ∧ cm_ObjectMeta (cm a') = cm_ObjectMeta (cm a)
        ∧ Data (cm a') ≠ None.
Proof.
  intros Hd Hr Hu. unfold update_keys. rewrite Hr.
  destruct (Data_assign_is_Some a rolesData br Hd) as [a1 Ha1].
  rewrite Ha1, Hu.
  destruct (Data_assign_frame _ _ _ _ Ha1) as (Hc1 & Hm1 & Hd1).
  destruct (Data_assign_is_Some a1 usersData bu Hd1) as [a2 Ha2].
  rewrite Ha2.
  destruct (Data_assign_frame _ _ _ _ Ha2) as (Hc2 & Hm2 & Hd2).
  exists a2. split; [done|].
  rewrite (Data_at_assign_eq _ _ _ _ Ha2).
  rewrite (Data_at_assign_ne _ _ _ rolesData _ Ha2) by done.
  rewrite (Data_at_assign_eq _ _ _ _ Ha1).
  rewrite (Data_at_assign_ne _ _ _ accountsData _ Ha2) by done.
  rewrite (Data_at_assign_ne _ _ _ accountsData _ Ha1) by done.
  rewrite Hc2, Hc1, Hm2, Hm1. done.
Qed.

Lemma update_keys_written a roles users :
  Data (cm a) ≠ None →
  ∃ err a', update_keys a roles users = Returns err a'
            ∧ (err = None → written a' roles users).
Proof.
  intros Hd.
  destruct (Marshal roles) as [br|e] eqn:Hr.
  2:{ unfold update_keys. rewrite Hr. by eexists _, _. }
  destruct (Marshal users) as [bu|e] eqn:Hu.
  - destruct (update_keys_encoded a roles users br bu Hd Hr Hu)
      as (a' & -> & Hbr & Hbu & _).
    exists None, a'. split; [done|]. intros _. unfold written.
    by rewrite Hbr, Hbu.
  - unfold update_keys. rewrite Hr.
    destruct (Data_assign_is_Some a rolesData br Hd) as [a1 ->].
    rewrite Hu. by eexists _, _.
Qed.
End WrittenKeys.

(** The identity keys under the contract of kept values. *)
Section KeptKeyFacts.
Context {R : Type} {A : Type} `{!YAML A} (keeps : A → Prop)
  `{!YAMLKeeps A keeps}.
Implicit Types a : AuthConfigMap R.

Lemma stores_kept a roles users :
  stores a roles users → Forall keeps (roles ++ users).
Proof.
  intros [Hr Hu]. apply Forall_app.
  split; by eapply Unmarshal_kept.
Qed.

Lemma Identities_kept a ids : Identities a = Ok ids → Forall keeps ids.
Proof.
  unfold Identities.
  destruct (Unmarshal (Data_at a rolesData)) as [roles|e] eqn:Hr; [|done].
  destruct (Unmarshal (Data_at a usersData)) as [users|e] eqn:Hu; [|done].
  intros [= <-]. by apply (stores_kept a roles users).
Qed.

Lemma update_keys_kept a roles users :
  Data (cm a) ≠ None → Forall keeps roles → Forall keeps users →
  ∃ a', update_keys a roles users = Returns None a'
        ∧ stores a' roles users
        ∧ Data_at a' accountsData = Data_at a accountsData
        ∧ client a' = client a
        ∧ cm_ObjectMeta (cm a') = cm_ObjectMeta (cm a)
        ∧ Data (cm a') ≠ None.
Proof.
  intros Hd Hkr Hku.
  destruct (Marshal_kept roles Hkr) as (br & Hr & Hbr).
  destruct (Marshal_kept users Hku) as (bu & Hu & Hbu).
  destruct (update_keys_encoded a roles users br bu Hd Hr Hu)
    as (a' & Hrun & <- & <- & Hrest).
  exists a'. split; [done|]. split; [by split | done].
Qed.

Lemma stores_New_kept (c : ConfigMapInterface R) :
  stores (A:=A) (New c None) [] [].
Proof.
  unfold stores, Data_at, New. simpl.
  rewrite !lookup_empty. simpl. by rewrite !Unmarshal_nothing.
Qed.
End KeptKeyFacts.

(** ** The [MapIdentity] revision *)

Module MapIdentityFacts.
Import MapIdentityRev.

Lemma Role_User_excl (m : MapIdentity) : Role m → User m → False.
Proof.
  unfold Role, User. intros H1 H2.
  apply bool_decide_unpack in H1. apply bool_decide_unpack in H2.
  rewrite H1 in H2. discriminate.
Qed.

Lemma Get_spec (rs : list MapIdentity) (arn : string) (r : MapIdentity) :
  r ∈ Get rs arn ↔ r ∈ rs ∧ ARN r = arn.
Proof. unfold Get. rewrite list_elem_of_filter. by split; intros []. Qed.

(** This revision has no [MarshalJSON] beside its [UnmarshalJSON], and the
    facts below assume nothing of the codec: they are about the lists the
    calls hand to [yaml.Marshal], and about what the calls do with a store
    that decodes. *)
Section Facts.
Context {R : Type} `{!YAML MapIdentity}.
Implicit Types a : AuthConfigMap R.

(** The keys of [a] hold the encodings of two lists split by kind. *)
Definition written_by_kind a : Prop :=
  ∃ roles users, written a roles users
                 ∧ Forall Role roles ∧ Forall User users.

Lemma setIdentities_loop_spec identities users roles :
  setIdentities_loop identities users roles
  = (users ++ filter User identities, roles ++ filter Role identities).
Proof.
  revert users roles.
  induction identities as [|m rest IH]; intros users roles;
    cbn [setIdentities_loop].
  - by rewrite !filter_nil, !app_nil_r.
  - rewrite IH. rewrite !filter_cons.
    destruct (Role m), (User m); simpl; by rewrite <- ?app_assoc.
Qed.

(** [setIdentities] hands to the encoder the records [Role] accepts and
    the records [User] accepts, and no other record. *)
Lemma setIdentities_files a identities :
  setIdentities a identities
  = update_keys a (filter Role identities) (filter User identities).
Proof. unfold setIdentities. by rewrite setIdentities_loop_spec. Qed.

Lemma setIdentities_by_kind a identities :
  Data (cm a) ≠ None →
  ∃ err a', setIdentities a identities = Returns err a'
            ∧ (err = None → written_by_kind a').
Proof.
  intros Hd. rewrite setIdentities_files.
  destruct (update_keys_written a (filter Role identities)
              (filter User identities) Hd) as (err & a' & -> & Hw).
  exists err, a'. split; [done|]. intros Herr.
  exists (filter Role identities), (filter User identities).
  split; [by apply Hw|]. split; apply Forall_filter_self.
Qed.

Lemma RemoveIdentity_loop_all a arn identities i rest newidentities :
  RemoveIdentity_loop a arn true identities i rest newidentities
  = inr (newidentities ++ filter (λ m, ARN m ≠ arn) rest).
Proof.
  revert i newidentities.
  induction rest as [|m rest IH]; intros i newidentities;
    cbn [RemoveIdentity_loop].
  - by rewrite filter_nil, app_nil_r.
  - destruct (decide (ARN m = arn)) as [Heq|Hne]; simpl.
    + rewrite IH. rewrite filter_cons_False; [done|]. by intros [].
    + rewrite IH. rewrite filter_cons_True by done.
      by rewrite <- app_assoc.
Qed.

Lemma RemoveIdentity_loop_none a arn identities i rest newidentities :
  Forall (λ m, ARN m ≠ arn) rest →
  RemoveIdentity_loop a arn false identities i rest newidentities
  = inr newidentities.
Proof.
  intros Hnone. revert i.
  induction Hnone as [|m rest Hm _ IH]; intros i;
    cbn [RemoveIdentity_loop]; [done|].
  destruct (decide (ARN m = arn)); [done|]. simpl. apply IH.
Qed.

Lemma RemoveIdentity_loop_first a arn identities i pre r post newidentities :
  Forall (λ m, ARN m ≠ arn) pre → ARN r = arn →
  RemoveIdentity_loop a arn false identities i (pre ++ r :: post)
    newidentities
  = inl (setIdentities a
           (take (i + length pre) identities
            ++ drop (S (i + length pre)) identities)).
Proof.
  intros Hpre Hr. revert i.
  induction Hpre as [|m pre Hm _ IH]; intros i;
    cbn [RemoveIdentity_loop app length].
  - destruct (decide (ARN r = arn)); [|done]. simpl.
    by rewrite Nat.add_0_r.
  - destruct (decide (ARN m = arn)); [done|]. simpl.
    rewrite IH. by replace (S i + length pre) with (i + S (length pre)) by lia.
Qed.

Lemma RemoveIdentity_loop_cases a arn identities i rest newidentities :
  RemoveIdentity_loop a arn false identities i rest newidentities
  = inr newidentities
  ∨ ∃ j, RemoveIdentity_loop a arn false identities i rest newidentities
         = inl (setIdentities a
                  (take j identities ++ drop (S j) identities)).
Proof.
  revert i. induction rest as [|m rest IH]; intros i;
    cbn [RemoveIdentity_loop]; [by left|].
  destruct (decide (ARN m = arn)); simpl; [right; by exists i | apply IH].
Qed.

(** A call of [AddIdentity] that returns no error leaves the encodings of
    two lists split by kind. *)
Lemma AddIdentity_by_kind a arn username groups :
  Data (cm a) ≠ None →
  ∃ err a', AddIdentity a arn username groups = Returns err a'
            ∧ (err = None → written_by_kind a').
Proof.
  intros Hd. unfold AddIdentity.
  destruct (Identities a) as [ids|e]; [by apply setIdentities_by_kind|].
  by exists (Some e), a.
Qed.

Lemma RemoveIdentity_by_kind a arn all :
  Data (cm a) ≠ None →
  ∃ err a', RemoveIdentity a arn all = Returns err a'
            ∧ (err = None → written_by_kind a').
Proof.
  intros Hd. unfold RemoveIdentity.
  destruct (Identities a) as [ids|e]; [|by exists (Some e), a].
  destruct all.
  - rewrite RemoveIdentity_loop_all. simpl. by apply setIdentities_by_kind.
  - destruct (RemoveIdentity_loop_cases a arn ids 0 ids []) as [->|[j ->]].
    + simpl. by exists (Some (ErrIdentityNotFound arn)), a.
    + by apply setIdentities_by_kind.
Qed.

(** What the three mutations re-encode, given the list they decoded. *)
Lemma AddIdentity_files a ids arn username groups :
  Identities a = Ok ids →
  AddIdentity a arn username groups
  = setIdentities a (ids ++ [mkMapIdentity (mkIdentity username groups) arn]).
Proof. intros Hids. unfold AddIdentity. by rewrite Hids. Qed.

Lemma RemoveIdentity_every_files a ids arn :
  Identities a = Ok ids →
  RemoveIdentity a arn true
  = setIdentities a (filter (λ m, ARN m ≠ arn) ids).
Proof.
  intros Hids. unfold RemoveIdentity.
  by rewrite Hids, RemoveIdentity_loop_all.
Qed.

Lemma RemoveIdentity_first_files a arn pre r post :
  Identities a = Ok (pre ++ r :: post) →
  Forall (λ m, ARN m ≠ arn) pre → ARN r = arn →
  RemoveIdentity a arn false = setIdentities a (pre ++ post).
Proof.
  intros Hids Hpre Hr. unfold RemoveIdentity. rewrite Hids.
  rewrite (RemoveIdentity_loop_first a arn _ 0 pre r post [] Hpre Hr).
  simpl. by rewrite cut_middle.
Qed.

(** [all = false], no record matches: the not-found error, and the
    receiver is the one the call started with. *)
Lemma RemoveIdentity_absent a roles users arn :
  stores a roles users →
  Forall (λ m, ARN m ≠ arn) (roles ++ users) →
  RemoveIdentity a arn false = Returns (Some (ErrIdentityNotFound arn)) a.
Proof.
  intros Hs Hnone. unfold RemoveIdentity.
  rewrite (Identities_stores _ _ _ Hs).
  by rewrite (RemoveIdentity_loop_none a arn _ 0 _ [] Hnone).
Qed.
End Facts.
End MapIdentityFacts.

(** ** The [iam.Identity] revision *)

Module IamFacts.
Import IamRev.

Section Facts.
Context {R : Type} `{!IAM} `{!YAML Identity}.
Implicit Types a : AuthConfigMap R.

(** Where the [switch] of [setIdentities] files a record: under the roles
    key when its ARN parses and [Role()] holds, under the users key when
    its ARN parses, [Role()] fails and [User()] holds. *)
Definition files_as_role (i : Identity) : bool :=
  match Identity_ARN i with
  | Ok p => ARN_Role p
  | Err _ => false
  end.

Definition files_as_user (i : Identity) : bool :=
  match Identity_ARN i with
  | Ok p => negb (ARN_Role p) && ARN_User p
  | Err _ => false
  end.

Definition classified (i : Identity) : bool :=
  files_as_role i || files_as_user i.

(** The comparison of [RemoveIdentity]: the record's ARN parses and its
    canonical string is that of [arn]. *)
Definition matches (arn : ARN) (i : Identity) : bool :=
  match Identity_ARN i with
  | Ok p => bool_decide (ARN_String p = ARN_String arn)
  | Err _ => false
  end.

Definition kind_split a : Prop :=
  ∃ roles users, stores a roles users
                 ∧ Forall files_as_role roles ∧ Forall files_as_user users.

Definition snapshot a (roles users : list Identity) : Prop :=
  stores a roles users
  ∧ Forall files_as_role roles ∧ Forall files_as_user users
  ∧ Data (cm a) ≠ None.

Lemma files_excl (i : Identity) : files_as_role i → files_as_user i → False.
Proof.
  unfold files_as_role, files_as_user.
  destruct (Identity_ARN i) as [p|e]; [|done].
  by destruct (ARN_Role p).
Qed.

Lemma role_classified i : files_as_role i → classified i.
Proof. unfold classified. by destruct (files_as_role i). Qed.

Lemma user_classified i : files_as_user i → classified i.
Proof. unfold classified. destruct (files_as_user i); [|done]. by rewrite orb_true_r. Qed.

Lemma snapshot_classified a roles users :
  snapshot a roles users → Forall classified (roles ++ users).
Proof.
  intros (_ & Hr & Hu & _). apply Forall_app. split.
  - eapply Forall_impl; [exact Hr|]. apply role_classified.
  - eapply Forall_impl; [exact Hu|]. apply user_classified.
Qed.

Lemma setIdentities_loop_ok identities users roles :
  Forall classified identities →
  setIdentities_loop identities users roles
  = Ok (users ++ filter files_as_user identities,
        roles ++ filter files_as_role identities).
Proof.
  intros Hall. revert users roles.
  induction Hall as [|i rest Hi _ IH]; intros users roles;
    cbn [setIdentities_loop].
  - by rewrite !filter_nil, !app_nil_r.
  - rewrite !filter_cons.
    unfold classified, files_as_role, files_as_user in *.
    destruct (Identity_ARN i) as [p|e]; [|done].
    destruct (ARN_Role p); simpl in *.
    + rewrite IH. by rewrite <- app_assoc.
    + destruct (ARN_User p); [|done]. simpl.
      rewrite IH. by rewrite <- app_assoc.
Qed.

(** A record that the [switch] can file nowhere makes the loop fail. *)
Lemma setIdentities_loop_unclassified identities users roles i :
  i ∈ identities → classified i = false →
  ∃ e, setIdentities_loop identities users roles = Err e.
Proof.
  intros Hin Hi. revert users roles.
  induction identities as [|j rest IH]; intros users roles;
    [by apply elem_of_nil in Hin|].
  cbn [setIdentities_loop].
  apply elem_of_cons in Hin as [<-|Hin].
  - unfold classified, files_as_role, files_as_user in Hi.
    destruct (Identity_ARN i) as [p|e]; [|by eauto].
    destruct (ARN_Role p); [done|]. simpl in Hi.
    destruct (ARN_User p); [done|]. by eauto.
  - destruct (Identity_ARN j) as [p|e]; [|by eauto].
    destruct (ARN_Role p); [by apply IH|].
    destruct (ARN_User p); [by apply IH | by eauto].
Qed.

Lemma setIdentities_loop_cases identities users roles :
  (∃ e, setIdentities_loop identities users roles = Err e)
  ∨ Forall classified identities.
Proof.
  revert users roles.
  induction identities as [|i rest IH]; intros users roles; [by right|].
  destruct (classified i) eqn:Hi.
  - cbn [setIdentities_loop].
    unfold classified, files_as_role, files_as_user in Hi.
    destruct (Identity_ARN i) as [p|e] eqn:Hp; [|done].
    assert (classified i) as Hci.
    { unfold classified, files_as_role, files_as_user. by rewrite Hp, Hi. }
    destruct (ARN_Role p); simpl in Hi.
    + destruct (IH users (roles ++ [i])) as [He|Hall]; [by left|].
      right. by apply Forall_cons.
    + destruct (ARN_User p); [|done].
      destruct (IH (users ++ [i]) roles) as [He|Hall]; [by left|].
      right. by apply Forall_cons.
  - left. apply (setIdentities_loop_unclassified _ _ _ i); [|done].
    apply elem_of_cons. by left.
Qed.

(** The [default] branch: the call fails and writes nothing. *)
Lemma setIdentities_unclassified a identities i :
  i ∈ identities → classified i = false →
  ∃ e, setIdentities a identities = Returns (Some e) a.
Proof.
  intros Hin Hi. unfold setIdentities.
  destruct (setIdentities_loop_unclassified identities [] [] i Hin Hi)
    as [e ->].
  by exists e.
Qed.

(** The first record that the [switch] can file nowhere, its ARN parsing,
    ends the loop in the [default] branch. *)
Lemma setIdentities_loop_default pre i post arn users roles :
  Forall classified pre →
  Identity_ARN i = Ok arn → ARN_Role arn = false → ARN_User arn = false →
  setIdentities_loop (pre ++ i :: post) users roles
  = Err (ErrCannotDetermine (ARN_Resource arn)).
Proof.
  intros Hpre Harn Hrole Huser. revert users roles.
  induction Hpre as [|j pre Hj _ IH]; intros users roles;
    cbn [app setIdentities_loop].
  - by rewrite Harn, Hrole, Huser.
  - unfold classified, files_as_role, files_as_user in Hj.
    destruct (Identity_ARN j) as [p|e]; [|done].
    destruct (ARN_Role p); [by apply IH|]. simpl in Hj.
    destruct (ARN_User p); [by apply IH | done].
Qed.

(** Where a classified record that is new to a split list sits once it is
    filed: behind the roles or behind the users, with no match before it. *)
Lemma classified_cut (roles users : list Identity) (r : Identity) (arn : ARN) :
  classified r →
  Forall (λ j, matches arn j = false) (roles ++ users) →
  ∃ pre post,
    (roles ++ filter files_as_role [r]) ++ (users ++ filter files_as_user [r])
    = pre ++ r :: post
    ∧ pre ++ post = roles ++ users
    ∧ Forall (λ j, matches arn j = false) pre.
Proof.
  intros Hclass Hnew. apply Forall_app in Hnew as [Hnr Hnu].
  unfold classified in Hclass.
  destruct (files_as_role r) eqn:Hrole.
  - exists roles, users.
    rewrite (filter_all (λ i, files_as_role i) [r])
      by (apply Forall_singleton; by rewrite Hrole).
    rewrite (filter_none (λ i, files_as_user i) [r]).
    2:{ apply Forall_singleton. intros Hu. apply (files_excl r); [|done].
        by rewrite Hrole. }
    by rewrite app_nil_r, <- app_assoc.
  - simpl in Hclass. exists (roles ++ users), [].
    rewrite (filter_all (λ i, files_as_user i) [r])
      by (by apply Forall_singleton).
    rewrite (filter_none (λ i, files_as_role i) [r]).
    2:{ apply Forall_singleton. intros Hr. by rewrite Hrole in Hr. }
    rewrite !app_nil_r, <- app_assoc.
    split; [done|]. split; [done|]. by apply Forall_app.
Qed.

Lemma classified_parses i :
  classified i → ∃ p, Identity_ARN i = Ok p.
Proof.
  unfold classified, files_as_role, files_as_user.
  destruct (Identity_ARN i) as [p|e]; [by eauto | done].
Qed.

Lemma iam_RemoveIdentity_loop_all a arn identities i rest newidentities :
  Forall classified rest →
  RemoveIdentity_loop a arn true identities i rest newidentities
  = inr (newidentities ++ filter (λ j, matches arn j = false) rest).
Proof.
  intros Hall. revert i newidentities.
  induction Hall as [|j rest Hj _ IH]; intros i newidentities;
    cbn [RemoveIdentity_loop].
  - by rewrite filter_nil, app_nil_r.
  - destruct (classified_parses j Hj) as [p Hp]. rewrite Hp.
    destruct (decide (ARN_String p = ARN_String arn)) as [Heq|Hne]; simpl.
    + rewrite IH. rewrite filter_cons_False; [done|].
      unfold matches. rewrite Hp. by rewrite bool_decide_eq_true_2.
    + rewrite IH. rewrite filter_cons_True.
      * by rewrite <- app_assoc.
      * unfold matches. rewrite Hp. by rewrite bool_decide_eq_false_2.
Qed.

Lemma iam_RemoveIdentity_loop_none a arn identities i rest newidentities :
  Forall classified rest →
  Forall (λ j, matches arn j = false) rest →
  RemoveIdentity_loop a arn false identities i rest newidentities
  = inr newidentities.
Proof.
  intros Hall Hnone. revert i.
  induction Hall as [|j rest Hj _ IH]; intros i;
    cbn [RemoveIdentity_loop]; [done|].
  apply Forall_cons in Hnone as [Hm Hnone]. unfold matches in Hm.
  destruct (classified_parses j Hj) as [p Hp]. rewrite Hp in *.
  destruct (decide (ARN_String p = ARN_String arn)) as [Heq|Hne].
  - by rewrite bool_decide_eq_true_2 in Hm.
  - simpl. by apply IH.
Qed.

Lemma iam_RemoveIdentity_loop_first a arn identities i pre r post newidentities :
  Forall classified pre →
  Forall (λ j, matches arn j = false) pre → matches arn r = true →
  RemoveIdentity_loop a arn false identities i (pre ++ r :: post)
    newidentities
  = inl (setIdentities a
           (take (i + length pre) identities
            ++ drop (S (i + length pre)) identities)).
Proof.
  intros Hall Hpre Hr. revert i.
  induction Hall as [|j pre Hj _ IH]; intros i;
    cbn [RemoveIdentity_loop app length].
  - unfold matches in Hr.
    destruct (Identity_ARN r) as [p|e]; [|done].
    apply bool_decide_eq_true_1 in Hr.
    destruct (decide (ARN_String p = ARN_String arn)); [|done]. simpl.
    by rewrite Nat.add_0_r.
  - apply Forall_cons in Hpre as [Hm Hpre]. unfold matches in Hm.
    destruct (classified_parses j Hj) as [p Hp]. rewrite Hp in *.
    destruct (decide (ARN_String p = ARN_String arn)) as [Heq|Hne].
    + by rewrite bool_decide_eq_true_2 in Hm.
    + simpl. rewrite IH by done.
      by replace (S i + length pre) with (i + S (length pre)) by lia.
Qed.

(** How the loop ends: it falls through with records it was handed, it
    stops on a record whose ARN does not parse, or it re-encodes the list
    without one of its records. *)
Lemma iam_RemoveIdentity_loop_cases (P : Identity → Prop) a arn all identities
    i rest newidentities :
  Forall P newidentities → Forall P rest →
  (∃ l, RemoveIdentity_loop a arn all identities i rest newidentities = inr l
        ∧ Forall P l)
  ∨ (∃ e, RemoveIdentity_loop a arn all identities i rest newidentities
          = inl (Returns (Some e) a))
  ∨ (∃ j, RemoveIdentity_loop a arn all identities i rest newidentities
          = inl (setIdentities a
                   (take j identities ++ drop (S j) identities))).
Proof.
  intros Hnew Hrest. revert i newidentities Hnew.
  induction Hrest as [|k rest Hk _ IH]; intros i newidentities Hnew;
    cbn [RemoveIdentity_loop]; [left; by eauto|].
  destruct (Identity_ARN k) as [p|e]; [|right; left; by eauto].
  destruct (decide (ARN_String p = ARN_String arn)), all; simpl;
    try (by apply IH).
  - right. right. by eauto.
  - apply IH. apply Forall_app. split; [done | by apply Forall_singleton].
Qed.

Lemma iam_RemoveIdentity_absent a roles users arn :
  snapshot a roles users →
  Forall (λ j, matches arn j = false) (roles ++ users) →
  RemoveIdentity a arn false
  = Returns (Some (ErrIdentityNotFound (ARN_String arn))) a.
Proof.
  intros Hsnap Hnone. unfold RemoveIdentity.
  rewrite (Identities_stores _ _ _ (proj1 Hsnap)).
  by rewrite (iam_RemoveIdentity_loop_none a arn _ 0 _ []
                (snapshot_classified _ _ _ Hsnap) Hnone).
Qed.

End Facts.

(** The operations under the contract of kept values: every record that
    was decoded is kept; a record of the caller has to be kept for the store
    to list it as it was given. *)
Section Kept.
Context {R : Type} `{!IAM} `{!YAML Identity} (keeps : Identity → Prop)
  `{!YAMLKeeps Identity keeps}.
Implicit Types a : AuthConfigMap R.

Lemma iam_setIdentities_kept a identities :
  Data (cm a) ≠ None → Forall classified identities → Forall keeps identities →
  ∃ a', setIdentities a identities = Returns None a'
        ∧ stores a' (filter files_as_role identities)
            (filter files_as_user identities)
        ∧ Data_at a' accountsData = Data_at a accountsData
        ∧ client a' = client a
        ∧ cm_ObjectMeta (cm a') = cm_ObjectMeta (cm a)
        ∧ Data (cm a') ≠ None.
Proof.
  intros Hd Hall Hk. unfold setIdentities.
  rewrite (setIdentities_loop_ok _ _ _ Hall). simpl.
  apply (update_keys_kept keeps); [done|..];
    by apply (Forall_sublist _ _ _ (sublist_filter _ _)).
Qed.

(** Re-encoding a list cut out of a snapshot stores that very list, and
    the result is a snapshot again. *)
Lemma iam_setIdentities_sublist_kept a roles users identities :
  snapshot a roles users →
  identities `sublist_of` roles ++ users →
  ∃ a', setIdentities a identities = Returns None a'
        ∧ snapshot a' (filter files_as_role identities)
            (filter files_as_user identities)
        ∧ filter files_as_role identities ++ filter files_as_user identities
          = identities
        ∧ Data_at a' accountsData = Data_at a accountsData
        ∧ cm_ObjectMeta (cm a') = cm_ObjectMeta (cm a).
Proof.
  intros Hsnap Hsub.
  pose proof (Forall_sublist _ _ _ Hsub (snapshot_classified _ _ _ Hsnap))
    as Hall.
  destruct Hsnap as (Hs & Hr & Hu & Hd).
  pose proof (Forall_sublist _ _ _ Hsub (stores_kept keeps _ _ _ Hs)) as Hk.
  destruct (iam_setIdentities_kept a identities Hd Hall Hk)
    as (a' & Hrun & Hs' & Hacc & _ & Hmeta & Hd').
  exists a'. split; [done|]. split.
  - split; [done|]. split; [apply Forall_filter_self|].
    split; [apply Forall_filter_self | done].
  - split; [|done].
    eapply (refile (λ i, files_as_role i) (λ i, files_as_user i));
      [|exact Hr|exact Hu|done].
    intros x. apply files_excl.
Qed.

(** [AddIdentity] of a valid, kept record on a snapshot: the record is
    filed behind the roles when it is a role and behind the users when it is
    a user, and every stored record stays where it was. *)
Lemma iam_AddIdentity_kept a roles users r :
  snapshot a roles users →
  Identity_Valid r = None → classified r → keeps r →
  ∃ a', AddIdentity a r = Returns None a'
        ∧ snapshot a' (roles ++ filter files_as_role [r])
            (users ++ filter files_as_user [r])
        ∧ Data_at a' accountsData = Data_at a accountsData
        ∧ cm_ObjectMeta (cm a') = cm_ObjectMeta (cm a).
Proof.
  intros Hsnap Hvalid Hclass Hkept.
  pose proof (snapshot_classified _ _ _ Hsnap) as Hall.
  destruct Hsnap as (Hs & Hr & Hu & Hd).
  unfold AddIdentity. rewrite (Identities_stores _ _ _ Hs), Hvalid.
  destruct (iam_setIdentities_kept a ((roles ++ users) ++ [r]) Hd)
    as (a' & -> & Hs' & Hacc & _ & Hmeta & Hd').
  { apply Forall_app. split; [done | by apply Forall_singleton]. }
  { apply Forall_app.
    split; [by apply (stores_kept keeps _ _ _ Hs) | by apply Forall_singleton]. }
  exists a'. split; [done|].
  rewrite !filter_app in Hs'.
  rewrite (filter_all (λ i, files_as_role i) roles Hr) in Hs'.
  rewrite (filter_all (λ i, files_as_user i) users Hu) in Hs'.
  rewrite (filter_none (λ i, files_as_role i) users) in Hs'.
  2:{ eapply Forall_impl; [exact Hu|]. intros x Hx Hp.
      exact (files_excl x Hp Hx). }
  rewrite (filter_none (λ i, files_as_user i) roles) in Hs'.
  2:{ eapply Forall_impl; [exact Hr|]. intros x Hx Hp.
      exact (files_excl x Hx Hp). }
  rewrite app_nil_r in Hs'. cbn [app] in Hs'.
  split; [|done]. split; [exact Hs'|].
  split; [apply Forall_app; split; [done | apply Forall_filter_self]|].
  split; [apply Forall_app; split; [done | apply Forall_filter_self]|done].
Qed.

Lemma iam_RemoveIdentity_first_kept a roles users arn pre r post :
  snapshot a roles users →
  roles ++ users = pre ++ r :: post →
  Forall (λ j, matches arn j = false) pre → matches arn r = true →
  ∃ a' roles' users',
    RemoveIdentity a arn false = Returns None a'
    ∧ snapshot a' roles' users'
    ∧ roles' ++ users' = pre ++ post
    ∧ Data_at a' accountsData = Data_at a accountsData
    ∧ cm_ObjectMeta (cm a') = cm_ObjectMeta (cm a).
Proof.
  intros Hsnap Hcut Hpre Hr. unfold RemoveIdentity.
  pose proof (snapshot_classified _ _ _ Hsnap) as Hall.
  rewrite (Identities_stores _ _ _ (proj1 Hsnap)).
  rewrite Hcut in Hall |- *.
  apply Forall_app in Hall as [Hall _].
  rewrite (iam_RemoveIdentity_loop_first a arn _ 0 pre r post [] Hall Hpre Hr).
  simpl. rewrite cut_middle.
  destruct (iam_setIdentities_sublist_kept a roles users (pre ++ post) Hsnap)
    as (a' & Hrun & Hsnap' & Hids & Hacc & Hmeta).
  { rewrite Hcut. apply sublist_app; [done|]. by apply sublist_cons. }
  by eexists a', _, _.
Qed.

Lemma iam_RemoveIdentity_every_kept a roles users arn :
  snapshot a roles users →
  ∃ a' roles' users',
    RemoveIdentity a arn true = Returns None a'
    ∧ snapshot a' roles' users'
    ∧ roles' ++ users' = filter (λ j, matches arn j = false) (roles ++ users)
    ∧ Data_at a' accountsData = Data_at a accountsData
    ∧ cm_ObjectMeta (cm a') = cm_ObjectMeta (cm a).
Proof.
  intros Hsnap. unfold RemoveIdentity.
  rewrite (Identities_stores _ _ _ (proj1 Hsnap)).
  rewrite (iam_RemoveIdentity_loop_all a arn _ 0 _ []
             (snapshot_classified _ _ _ Hsnap)).
  simpl.
  destruct (iam_setIdentities_sublist_kept a roles users
              (filter (λ j, matches arn j = false) (roles ++ users)) Hsnap)
    as (a' & Hrun & Hsnap' & Hids & Hacc & Hmeta).
  { apply sublist_filter. }
  by eexists a', _, _.
Qed.

(** Without a snapshot: a call either rewrites the keys split by kind or
    fails and writes nothing. *)
Lemma setIdentities_split_kept a identities :
  Data (cm a) ≠ None → Forall keeps identities →
  ∃ err a', setIdentities a identities = Returns err a'
            ∧ (err = None → kind_split a') ∧ (err ≠ None → a' = a).
Proof.
  intros Hd Hk.
  destruct (setIdentities_loop_cases identities [] []) as [[e He]|Hall].
  - unfold setIdentities. rewrite He.
    exists (Some e), a. split; [done|]. split; done.
  - destruct (iam_setIdentities_kept a identities Hd Hall Hk)
      as (a' & -> & Hs & _).
    exists None, a'. split; [done|]. split; [|done].
    intros _. exists (filter files_as_role identities),
                     (filter files_as_user identities).
    split; [done|]. split; apply Forall_filter_self.
Qed.

Lemma iam_AddIdentity_split_kept a identity :
  Data (cm a) ≠ None → keeps identity →
  ∃ err a', AddIdentity a identity = Returns err a'
            ∧ (err = None → kind_split a') ∧ (err ≠ None → a' = a).
Proof.
  intros Hd Hkept. unfold AddIdentity.
  destruct (Identities a) as [ids|e] eqn:Hids;
    [|exists (Some e), a; split; [done|]; split; done].
  destruct (Identity_Valid identity) as [e|];
    [exists (Some e), a; split; [done|]; split; done|].
  apply setIdentities_split_kept; [done|].
  apply Forall_app. split; [|by apply Forall_singleton].
  by apply (Identities_kept keeps a).
Qed.

Lemma iam_RemoveIdentity_split_kept a arn all :
  Data (cm a) ≠ None →
  ∃ err a', RemoveIdentity a arn all = Returns err a'
            ∧ (err = None → kind_split a') ∧ (err ≠ None → a' = a).
Proof.
  intros Hd. unfold RemoveIdentity.
  destruct (Identities a) as [ids|e] eqn:Hids;
    [|exists (Some e), a; split; [done|]; split; done].
  pose proof (Identities_kept keeps a ids Hids) as Hk.
  destruct (iam_RemoveIdentity_loop_cases keeps a arn all ids 0 ids []
              (Forall_nil_2 _) Hk) as [(l & -> & Hl)|[[e ->]|[j ->]]].
  - destruct all; simpl.
    + by apply setIdentities_split_kept.
    + exists (Some (ErrIdentityNotFound (ARN_String arn))), a.
      split; [done|]. split; done.
  - exists (Some e), a. split; [done|]. split; done.
  - apply setIdentities_split_kept; [done|].
    apply Forall_app. split; [by apply Forall_take | by apply Forall_drop].
Qed.
End Kept.
End IamFacts.

(** ** The model of [pkg/iam] *)

Lemma Parse_short (raw : string) :
  length (Split ":" raw) < 6 → ∃ e, IamModel.Parse raw = Err e.
Proof.
  intros Hlen. unfold IamModel.Parse.
  destruct (decide (length (Split ":" raw) < 6)); [by eauto | lia].
Qed.

(** ** The text of the reference codecs is read back as written *)

Module WireFacts.
Import Wire IamModel.

Lemma app_cons (c : ascii) (s t : string) :
  String c s +:+ t = String c (s +:+ t).
Proof. reflexivity. Qed.

Lemma app_nil_l (t : string) : "" +:+ t = t.
Proof. reflexivity. Qed.

Lemma app_nil_r (s : string) : s +:+ "" = s.
Proof.
  induction s as [|c s IH]; [done|]. by rewrite app_cons, IH.
Qed.

Lemma app_assoc (s t u : string) : (s +:+ t) +:+ u = s +:+ (t +:+ u).
Proof.
  induction s as [|c s IH]; [done|]. by rewrite !app_cons, IH.
Qed.

Lemma get_put_nat (n : nat) (rest : string) :
  get_nat (put_nat n +:+ rest) = Some (n, rest).
Proof.
  induction n as [|n IH]; [done|].
  cbn [put_nat]. rewrite app_cons. cbn [get_nat].
  by rewrite IH.
Qed.

Lemma split_at_app (s rest : string) :
  split_at (String.length s) (s +:+ rest) = Some (s, rest).
Proof.
  induction s as [|c s IH]; [done|].
  cbn [String.length]. rewrite app_cons. cbn [split_at].
  by rewrite IH.
Qed.

Lemma get_put_string (s rest : string) :
  get_string (put_string s +:+ rest) = Some (s, rest).
Proof.
  unfold get_string, put_string.
  rewrite app_assoc, get_put_nat. apply split_at_app.
Qed.

Section Sequences.
Context {A : Type} (put : A → string) (get : string → option (A * string)).
Hypothesis get_put : ∀ x rest, get (put x +:+ rest) = Some (x, rest).

Lemma get_put_items (l : list A) (rest : string) :
  get_items get (length l) (put_items put l +:+ rest) = Some (l, rest).
Proof.
  induction l as [|x l IH]; [done|].
  cbn [length put_items get_items].
  by rewrite app_assoc, get_put, IH.
Qed.

Lemma get_put_list (l : list A) (rest : string) :
  get_list get (put_list put l +:+ rest) = Some (l, rest).
Proof.
  unfold get_list, put_list.
  rewrite app_assoc, get_put_nat. apply get_put_items.
Qed.

Lemma unmarshal_marshal (l : list A) :
  ∃ bs, marshal put l = Ok bs ∧ unmarshal get bs = Ok l.
Proof.
  exists (put_list put l). split; [done|].
  unfold unmarshal.
  destruct (decide (put_list put l = "")) as [Hnil|_].
  - unfold put_list in Hnil. by destruct (length l).
  - rewrite <- (app_nil_r (put_list put l)). by rewrite get_put_list.
Qed.
End Sequences.

Lemma get_put_IdentityRecord i rest :
  IamModel.get_IdentityRecord (IamModel.put_IdentityRecord i +:+ rest)
  = Some (i, rest).
Proof.
  destruct i as [p u g].
  unfold IamModel.get_IdentityRecord, IamModel.put_IdentityRecord. simpl.
  rewrite !app_assoc, !get_put_string.
  by rewrite (get_put_list put_string get_string get_put_string).
Qed.

End WireFacts.

(** ** The reference codecs satisfy the contract of kept values *)

Module Utf8Facts.
Import Wire Utf8.

Section Coercing.
Context {A : Type} `{!EqDecision A}
  (put : A → string) (get : string → option (A * string)) (coerced : A → A).
Hypothesis get_put : ∀ x rest, get (put x +:+ rest) = Some (x, rest).

Lemma map_intact (l : list A) : Forall (intact coerced) l → map coerced l = l.
Proof.
  induction 1 as [|x l Hx _ IH]; [done|].
  cbn [map]. by rewrite Hx, IH.
Qed.

Lemma coercing_keeps : @YAMLKeeps A (coercing put get coerced) (intact coerced).
Proof.
  split.
  - cbn. unfold unmarshal. rewrite decide_True by done.
    by rewrite decide_True by constructor.
  - intros l Hl. exists (put_list put (map coerced l)). split; [done|].
    rewrite (map_intact l Hl). cbn.
    destruct (WireFacts.unmarshal_marshal put get get_put l)
      as (bs & [= <-] & ->).
    by rewrite decide_True.
  - intros bs l. cbn. destruct (unmarshal get bs) as [l'|e]; [|done].
    destruct (decide (Forall (intact coerced) l')); [|done].
    by intros [= <-].
Qed.
End Coercing.

Lemma coerce_RuneError (s : string) :
  coerce (RuneError +:+ s) = RuneError +:+ coerce s.
Proof. reflexivity. Qed.

Lemma coerce_coerce_upto (n : nat) (s : string) :
  String.length s < n → coerce (coerce s) = coerce s.
Proof.
  revert s. induction n as [|n IH]; intros s Hlen; [lia|].
  destruct s as [|a s1]; [done|]. cbn [String.length] in Hlen.
  assert (coerce (RuneError +:+ coerce s1) = RuneError +:+ coerce s1) as Herr.
  { rewrite coerce_RuneError, IH by lia. done. }
  cbn [coerce].
  destruct (between 0 127 a) eqn:Ha.
  { cbn [coerce]. rewrite Ha, IH by lia. done. }
  destruct s1 as [|b s2]; [done|]. cbn [String.length] in Hlen.
  destruct (two_bytes a b) eqn:Hab.
  { cbn [coerce]. rewrite Ha, Hab, IH by lia. done. }
  destruct s2 as [|c s3]; [exact Herr|]. cbn [String.length] in Hlen.
  destruct (three_bytes a b c) eqn:Habc.
  { cbn [coerce]. rewrite Ha, Hab, Habc, IH by lia. done. }
  destruct s3 as [|d s4]; [exact Herr|]. cbn [String.length] in Hlen.
  destruct (four_bytes a b c d) eqn:Habcd; [|exact Herr].
  cbn [coerce]. rewrite Ha, Hab, Habc, Habcd, IH by lia. done.
Qed.

(** What [coerce] returns is valid UTF-8: coercing it again changes
    nothing. *)
Lemma coerce_coerce (s : string) : coerce (coerce s) = coerce s.
Proof. apply (coerce_coerce_upto (S (String.length s))). lia. Qed.

Lemma map_coerce_coerce (l : list string) :
  map coerce (map coerce l) = map coerce l.
Proof.
  induction l as [|s l IH]; [done|]. cbn [map]. by rewrite coerce_coerce, IH.
Qed.

#[export] Instance yaml_string_keeps :
  @YAMLKeeps string yaml_string (intact coerce).
Proof. apply coercing_keeps, WireFacts.get_put_string. Qed.

#[export] Instance yaml_IdentityRecord_keeps :
  @YAMLKeeps IamModel.IdentityRecord yaml_IdentityRecord (intact coerce_record).
Proof. apply coercing_keeps, WireFacts.get_put_IdentityRecord. Qed.
End Utf8Facts.

(** ** The [MapIdentity] revision does not read what it writes *)

Module MapIdentityJSONFacts.
Import MapIdentityRev MapIdentityJSON.

Section Facts.
Context `{!JSON}.

(** An object that has neither key is refused, whatever else it holds. *)
Lemma UnmarshalJSON_missing (m : MapIdentity) (data : RawMessage)
    (keys : gmap string RawMessage) :
  Unmarshal_keys data = Ok keys →
  keys !! "rolearn" = None → keys !! "userarn" = None →
  UnmarshalJSON m data = inl (FailedNew "missing arn").
Proof. intros Hk Hr Hu. unfold UnmarshalJSON. by rewrite Hk, Hr, Hu. Qed.

(** The encoding of the struct is an object with neither a [rolearn] nor a
    [userarn] field: the ARN is in a field without tag, and the fields of
    [iam.Identity] are the username and the groups. *)
Definition struct_has_no_arn_key : Prop :=
  ∀ m, ∃ keys, Unmarshal_keys (Marshal_struct m) = Ok keys
               ∧ keys !! "rolearn" = None ∧ keys !! "userarn" = None.

Lemma Unmarshal_elements_struct (m : MapIdentity) (l : list MapIdentity) :
  struct_has_no_arn_key →
  Unmarshal_elements (map Marshal_struct (m :: l))
  = inl (FailedNew "missing arn").
Proof.
  intros Hs. cbn [map Unmarshal_elements].
  destruct (Hs m) as (keys & Hk & Hr & Hu).
  by rewrite (UnmarshalJSON_missing _ _ keys).
Qed.

Context `{!YAML RawMessage} (keeps : RawMessage → Prop)
  `{!YAMLKeeps RawMessage keeps}.

(** The error of [yaml.Unmarshal] on a sequence of encoded structs. *)
Definition missing_arn : error := unmarshaling_JSON (FailedNew "missing arn").

Lemma Marshal_then_Unmarshal (l : list MapIdentity) :
  struct_has_no_arn_key → (∀ m, keeps (Marshal_struct m)) →
  ∃ bs, Marshal (YAML := yaml_MapIdentity) l = Ok bs
        ∧ Unmarshal (YAML := yaml_MapIdentity) bs
          = match l with
            | [] => Ok []
            | _ :: _ => Err missing_arn
            end.
Proof.
  intros Hs Hk.
  destruct (Marshal_kept (map Marshal_struct l)) as (bs & Hm & Hu).
  { apply Forall_forall. intros d Hd.
    apply list_elem_of_fmap in Hd as (m & -> & _). apply Hk. }
  exists bs. split; [exact Hm|]. cbn. rewrite Hu.
  destruct l as [|m l]; [done|]. by rewrite Unmarshal_elements_struct.
Qed.
End Facts.
End MapIdentityJSONFacts.

(** ** The reference implementation of [JSON] *)

Module JSONWireFacts.
Import Wire WireFacts MapIdentityJSON JSONWire.

Lemma get_put_value v rest : get_value (put_value v +:+ rest) = Some (v, rest).
Proof.
  destruct v as [s|l]; unfold get_value, put_value;
    rewrite WireFacts.app_cons; cbv beta iota.
  - change (Ascii.eqb "s" "s") with true. cbv iota.
    by rewrite get_put_string.
  - change (Ascii.eqb "l" "s") with false.
    change (Ascii.eqb "l" "l") with true. cbv iota.
    by rewrite (get_put_list put_string get_string get_put_string).
Qed.

Lemma get_put_field kv rest : get_field (put_field kv +:+ rest) = Some (kv, rest).
Proof.
  destruct kv as [k v]. unfold get_field, put_field. cbn [fst snd].
  by rewrite WireFacts.app_assoc, get_put_string, get_put_value.
Qed.

Lemma get_put_raw d rest : get_raw (put_raw d +:+ rest) = Some (d, rest).
Proof.
  destruct d as [v|fields]; unfold get_raw, put_raw;
    rewrite WireFacts.app_cons; cbv beta iota.
  - change (Ascii.eqb "v" "v") with true. cbv iota.
    by rewrite get_put_value.
  - change (Ascii.eqb "o" "v") with false.
    change (Ascii.eqb "o" "o") with true. cbv iota.
    by rewrite (get_put_list put_field get_field get_put_field).
Qed.

#[export] Instance yaml_raw_keeps :
  @YAMLKeeps raw yaml_raw (Utf8.intact coerce_raw).
Proof. apply Utf8Facts.coercing_keeps, get_put_raw. Qed.

Lemma coerce_value_coerce_value (v : value) :
  coerce_value (coerce_value v) = coerce_value v.
Proof.
  destruct v as [s|l]; cbn [coerce_value].
  - by rewrite Utf8Facts.coerce_coerce.
  - by rewrite Utf8Facts.map_coerce_coerce.
Qed.

Lemma coerce_raw_coerce_raw (d : raw) : coerce_raw (coerce_raw d) = coerce_raw d.
Proof.
  destruct d as [v|fields]; cbn [coerce_raw].
  - by rewrite coerce_value_coerce_value.
  - f_equal. induction fields as [|kv fields IH]; [done|].
    cbn [map fst snd].
    by rewrite Utf8Facts.coerce_coerce, coerce_value_coerce_value, IH.
Qed.

(** The encoding of a struct is a message the codec keeps. *)
Lemma Marshal_struct_intact (m : MapIdentityRev.MapIdentity) :
  Utf8.intact coerce_raw (Marshal_struct m).
Proof. apply coerce_raw_coerce_raw. Qed.

Lemma json_struct_has_no_arn_key :
  MapIdentityJSONFacts.struct_has_no_arn_key (H := json).
Proof. intros m. by eexists. Qed.
End JSONWireFacts.

(** * The specification's claims

    Where a statement reads back what a call wrote, the YAML library is
    assumed to satisfy [YAMLKeeps keeps].  A call that re-encodes only what
    it decoded needs nothing more; a value of the caller that is encoded has
    to be one the library keeps. *)

(** C5, amended. For an account the YAML library keeps (a string of valid
    UTF-8), [AddAccount] leaves a deduplicated, lexically sorted account
    list, whatever the order and the duplicates of the list it found: the
    call succeeds, the stored list is sorted and free of duplicates, its
    members are the old members and the new account, and adding the same
    account a second time changes nothing (the second call returns the very
    same store). *)
Theorem AddAccount_normalizes {R : Type} `{!YAML string}
    (keeps : string → Prop) `{!YAMLKeeps string keeps}
    (a : AuthConfigMap R) (account : string) (stored : list string) :
  Data (cm a) ≠ None →
  accounts a = Ok stored →
  keeps account →
  ∃ a' l, AddAccount a account = Returns None a'
          ∧ accounts a' = Ok l
          ∧ StronglySorted String.le l ∧ NoDup l
          ∧ (∀ x, x ∈ l ↔ x ∈ stored ∨ x = account)
          ∧ AddAccount a' account = Returns None a'.
Proof.
  intros Hd Hacc Hkept. unfold AddAccount at 1. rewrite Hacc. cbv zeta.
  set (l := List (NewString (stored ++ [account]))).
  destruct (setAccounts_kept keeps a l Hd) as (a' & Hrun & Hacc' & Hd' & Hagain).
  { apply List_NewString_kept; [by eapply accounts_kept | done]. }
  exists a', l. split; [done|]. split; [done|].
  split; [apply List_sorted|]. split; [apply List_NoDup|].
  assert (∀ x, x ∈ l ↔ x ∈ stored ∨ x = account) as Hmem.
  { intros x. unfold l. rewrite List_NewString_elem_of, elem_of_app.
    rewrite list_elem_of_singleton. done. }
  split; [done|].
  unfold AddAccount. rewrite Hacc'. cbv zeta.
  replace (List (NewString (l ++ [account]))) with l; [done|].
  symmetry. apply List_canonical; [apply List_sorted | apply List_NoDup |].
  intros x. unfold NewString. rewrite elem_of_list_to_set, elem_of_app.
  rewrite list_elem_of_singleton, Hmem. split; [by left|].
  intros [Hx|Hx]; [done | by right].
Qed.

(** C6, amended. When the account is not among the stored accounts and is
    one the YAML library keeps (a string of valid UTF-8), [AddAccount]
    followed by [RemoveAccount] of the same account succeeds and leaves the
    account set as it was: the stored list is the sorted, duplicate-free
    listing of the original members, and it is the original list itself when
    that was sorted and free of duplicates. *)
Theorem AddAccount_RemoveAccount {R : Type} `{!YAML string}
    (keeps : string → Prop) `{!YAMLKeeps string keeps}
    (a : AuthConfigMap R) (account : string) (stored : list string) :
  Data (cm a) ≠ None →
  accounts a = Ok stored →
  account ∉ stored →
  keeps account →
  ∃ a1 a2, AddAccount a account = Returns None a1
           ∧ RemoveAccount a1 account = Returns None a2
           ∧ accounts a2 = Ok (List (NewString stored))
           ∧ (∀ x, x ∈ List (NewString stored) ↔ x ∈ stored)
           ∧ (StronglySorted String.le stored → NoDup stored →
              accounts a2 = accounts a).
Proof.
  intros Hd Hacc Hnew Hkept.
  destruct (AddAccount_kept keeps a account stored Hd Hacc Hkept)
    as (a1 & Hadd & Hacc1 & Hd1).
  exists a1.
  unfold RemoveAccount. rewrite Hacc1, RemoveAccount_loop_spec.
  rewrite (bool_decide_eq_true_2 (account ∈ List (NewString (stored ++ [account])))).
  2:{ rewrite List_NewString_elem_of, elem_of_app, list_elem_of_singleton.
      by right. }
  simpl.
  set (l2 := filter (λ acc, acc ≠ account) (List (NewString (stored ++ [account])))).
  destruct (setAccounts_kept keeps a1 l2 Hd1) as (a2 & Hrun & Hacc2 & _).
  { unfold l2. eapply Forall_sublist; [apply sublist_filter|].
    by eapply accounts_kept. }
  exists a2. split; [done|]. split; [done|].
  assert (l2 = List (NewString stored)) as Hl2.
  { symmetry. apply List_canonical.
    - unfold l2. eapply StronglySorted_sublist;
        [apply sublist_filter | apply List_sorted].
    - unfold l2. apply NoDup_filter, List_NoDup.
    - intros x. unfold l2, NewString.
      rewrite list_elem_of_filter, List_elem_of, !elem_of_list_to_set.
      rewrite elem_of_app, list_elem_of_singleton.
      split; [by intros [Hne [Hx|Hx]] | intros Hx].
      split; [by intros -> | by left]. }
  rewrite Hacc2, Hl2. split; [done|].
  split; [apply List_NewString_elem_of|].
  intros Hs Hn. by rewrite Hacc, List_NewString_id.
Qed.

(** C1. After [AddIdentity] or [RemoveIdentity] has rewritten the identity
    keys, the roles key holds only records that classify as role and the
    users key only records that classify as user, in both revisions.  Nothing
    is assumed about how the keys were split before the call.  For the
    [MapIdentity] revision this is said of the lists the call handed to the
    encoder: when the call returns no error, the two keys hold the encodings
    of a list of roles and of a list of users.  For the [iam.Identity]
    revision it is said of what the keys decode to: a call either returns no
    error and leaves the keys split by kind, or returns an error and leaves
    the receiver as it found it; the record handed to [AddIdentity] is one
    the YAML library keeps (its strings are valid UTF-8). *)
Theorem mutation_splits_by_kind {R : Type}
    `{!YAML MapIdentityRev.MapIdentity}
    `{!IamRev.IAM} `{!YAML IamRev.Identity}
    (keeps : IamRev.Identity → Prop) `{!YAMLKeeps IamRev.Identity keeps}
    (a : AuthConfigMap R) :
  Data (cm a) ≠ None →
  (∀ arn username groups, ∃ err a',
      MapIdentityRev.AddIdentity a arn username groups = Returns err a'
      ∧ (err = None → MapIdentityFacts.written_by_kind a'))
  ∧ (∀ arn all, ∃ err a',
      MapIdentityRev.RemoveIdentity a arn all = Returns err a'
      ∧ (err = None → MapIdentityFacts.written_by_kind a'))
  ∧ (∀ identity, keeps identity → ∃ err a',
      IamRev.AddIdentity a identity = Returns err a'
      ∧ (err = None → IamFacts.kind_split a') ∧ (err ≠ None → a' = a))
  ∧ (∀ arn all, ∃ err a',
      IamRev.RemoveIdentity a arn all = Returns err a'
      ∧ (err = None → IamFacts.kind_split a') ∧ (err ≠ None → a' = a)).
Proof.
  intros Hd. split; [|split; [|split]].
  - intros arn username groups. by apply MapIdentityFacts.AddIdentity_by_kind.
  - intros arn all. by apply MapIdentityFacts.RemoveIdentity_by_kind.
  - intros identity Hkept. by apply (IamFacts.iam_AddIdentity_split_kept keeps).
  - intros arn all. by apply (IamFacts.iam_RemoveIdentity_split_kept keeps).
Qed.

(** C2. [setIdentities] fails when a record of the list classifies as
    neither role nor user, and then writes nothing: the receiver is the one
    the call started with.  When the records before the offending one can be
    filed and its ARN parses, the error is the one of the [default] branch,
    which names the resource of that ARN.  This is the [setIdentities] of the
    [iam.Identity] revision. *)
Theorem setIdentities_fails_on_unclassified {R : Type}
    `{!IamRev.IAM} `{!YAML IamRev.Identity}
    (a : AuthConfigMap R) (identities : list IamRev.Identity) :
  (∀ i, i ∈ identities → IamFacts.classified i = false →
        ∃ e, IamRev.setIdentities a identities = Returns (Some e) a)
  ∧ (∀ pre i post arn,
        identities = pre ++ i :: post →
        Forall IamFacts.classified pre →
        IamRev.Identity_ARN i = Ok arn →
        IamRev.ARN_Role arn = false → IamRev.ARN_User arn = false →
        IamRev.setIdentities a identities
        = Returns (Some (ErrCannotDetermine (IamRev.ARN_Resource arn))) a).
Proof.
  split.
  - intros i Hin Hi. by apply (IamFacts.setIdentities_unclassified a _ i).
  - intros pre i post arn -> Hpre Harn Hrole Huser.
    unfold IamRev.setIdentities.
    by rewrite (IamFacts.setIdentities_loop_default pre i post arn [] []).
Qed.

(** C3. On a snapshot, [RemoveIdentity] with [all = false] removes the first
    record, in the order roles then users, whose principal equals the
    argument, and keeps every other record in place; the account key and the
    metadata are untouched.  When no record matches it returns the not-found
    error and the receiver is unchanged.  The removal is that of the
    [iam.Identity] revision, which compares the canonical strings of the
    parsed ARNs; the not-found half holds in the [MapIdentity] revision too,
    for any store whose two keys decode. *)
Theorem RemoveIdentity_first_match {R : Type}
    `{!YAML MapIdentityRev.MapIdentity}
    `{!IamRev.IAM} `{!YAML IamRev.Identity}
    (keeps : IamRev.Identity → Prop) `{!YAMLKeeps IamRev.Identity keeps}
    (a : AuthConfigMap R) :
  (∀ roles users arn,
      stores a roles users →
      Forall (λ m, MapIdentityRev.ARN m ≠ arn) (roles ++ users) →
      MapIdentityRev.RemoveIdentity a arn false
      = Returns (Some (ErrIdentityNotFound arn)) a)
  ∧ (∀ roles users arn,
      IamFacts.snapshot a roles users →
      (∀ pre r post,
          roles ++ users = pre ++ r :: post →
          Forall (λ j, IamFacts.matches arn j = false) pre →
          IamFacts.matches arn r = true →
          ∃ a', IamRev.RemoveIdentity a arn false = Returns None a'
                ∧ Identities a' = Ok (pre ++ post)
                ∧ Data_at a' accountsData = Data_at a accountsData
                ∧ cm_ObjectMeta (cm a') = cm_ObjectMeta (cm a))
      ∧ (Forall (λ j, IamFacts.matches arn j = false) (roles ++ users) →
         IamRev.RemoveIdentity a arn false
         = Returns (Some (ErrIdentityNotFound (IamRev.ARN_String arn))) a)).
Proof.
  split.
  - intros roles users arn. apply MapIdentityFacts.RemoveIdentity_absent.
  - intros roles users arn Hsnap. split.
    + intros pre r post Hcut Hpre Hr.
      destruct (IamFacts.iam_RemoveIdentity_first_kept keeps a roles users arn
                  pre r post Hsnap Hcut Hpre Hr)
        as (a' & roles' & users' & Hrun & Hsnap' & Hids & Hacc & Hmeta).
      exists a'. split; [done|].
      by rewrite (Identities_stores _ _ _ (proj1 Hsnap')), Hids.
    + by apply IamFacts.iam_RemoveIdentity_absent.
Qed.

(** C4. On a snapshot, [RemoveIdentity] with [all = true] returns no error
    and leaves exactly the records whose principal differs from the
    argument, in their order; when no record matches, the identity list is
    the one the call found.  This is the [RemoveIdentity] of the
    [iam.Identity] revision. *)
Theorem RemoveIdentity_all_matches {R : Type}
    `{!IamRev.IAM} `{!YAML IamRev.Identity}
    (keeps : IamRev.Identity → Prop) `{!YAMLKeeps IamRev.Identity keeps}
    (a : AuthConfigMap R) (roles users : list IamRev.Identity)
    (arn : IamRev.ARN) :
  IamFacts.snapshot a roles users →
  ∃ a', IamRev.RemoveIdentity a arn true = Returns None a'
        ∧ Identities a'
          = Ok (filter (λ j, IamFacts.matches arn j = false) (roles ++ users))
        ∧ (Forall (λ j, IamFacts.matches arn j = false) (roles ++ users) →
           Identities (A:=IamRev.Identity) a' = Identities a).
Proof.
  intros Hsnap.
  destruct (IamFacts.iam_RemoveIdentity_every_kept keeps a roles users arn Hsnap)
    as (a' & roles' & users' & Hrun & Hsnap' & Hids & _).
  exists a'. split; [done|].
  rewrite (Identities_stores _ _ _ (proj1 Hsnap')), Hids.
  split; [done|].
  intros Hnone. rewrite (Identities_stores _ _ _ (proj1 Hsnap)).
  by rewrite filter_all.
Qed.


(** C9. On a snapshot, adding a valid record ([Valid()] accepts it, its ARN
    parses and is that of a role or of a user) that the YAML library keeps
    and whose principal no stored record carries, and then removing that
    principal with [all = false], succeeds twice and gives back the identity
    list the snapshot had.  These are the [AddIdentity] and [RemoveIdentity]
    of the [iam.Identity] revision. *)
Theorem AddIdentity_then_RemoveIdentity {R : Type}
    `{!IamRev.IAM} `{!YAML IamRev.Identity}
    (keeps : IamRev.Identity → Prop) `{!YAMLKeeps IamRev.Identity keeps}
    (a : AuthConfigMap R) (roles users : list IamRev.Identity)
    (r : IamRev.Identity) (arn : IamRev.ARN) :
  IamFacts.snapshot a roles users →
  IamRev.Identity_Valid r = None →
  IamFacts.classified r →
  IamFacts.matches arn r = true →
  keeps r →
  Forall (λ j, IamFacts.matches arn j = false) (roles ++ users) →
  ∃ a1 a2,
    IamRev.AddIdentity a r = Returns None a1
    ∧ IamRev.RemoveIdentity a1 arn false = Returns None a2
    ∧ Identities a2 = Ok (roles ++ users)
    ∧ Identities (A:=IamRev.Identity) a2 = Identities a.
Proof.
  intros Hsnap Hvalid Hclass Hmatch Hkept Hnew.
  destruct (IamFacts.iam_AddIdentity_kept keeps a roles users r Hsnap Hvalid
              Hclass Hkept) as (a1 & Hadd & Hsnap1 & _).
  destruct (IamFacts.classified_cut roles users r arn Hclass Hnew)
    as (pre & post & Hcut & Hback & Hpre).
  destruct (IamFacts.iam_RemoveIdentity_first_kept keeps a1 _ _ arn pre r post
              Hsnap1 Hcut Hpre Hmatch)
    as (a2 & roles2 & users2 & Hrm & Hsnap2 & Hids & _).
  exists a1, a2. split; [done|]. split; [done|].
  rewrite (Identities_stores _ _ _ (proj1 Hsnap2)), Hids, Hback.
  split; [done|]. by rewrite (Identities_stores _ _ _ (proj1 Hsnap)).
Qed.

(** C8. [Save] issues [Create] exactly when the held ConfigMap has an empty
    UID and [Update] otherwise; either way it sends the held ConfigMap (with
    the UID it holds), issues that one request only, returns the client's
    error, and from then on holds the ConfigMap the client handed back, UID
    included. *)
Theorem Save_creates_or_updates {R : Type} (c : ConfigMapInterface R)
    (held : ConfigMap) (r : R) (log : list call) :
  let a := mkAuthConfigMap (recording c) held in
  (UID (cm_ObjectMeta held) = "" →
   Save a (r, log)
   = (Returns (Create c held r).1.2
        (mkAuthConfigMap (recording c) (Create c held r).1.1),
      ((Create c held r).2, log ++ [CallCreate held])))
  ∧ (UID (cm_ObjectMeta held) ≠ "" →
     Save a (r, log)
     = (Returns (Update c held r).1.2
          (mkAuthConfigMap (recording c) (Update c held r).1.1),
        ((Update c held r).2, log ++ [CallUpdate held]))).
Proof.
  intros a. unfold Save, a. simpl. split; intros Huid.
  - destruct (decide (UID (cm_ObjectMeta held) = "")); [|done].
    by destruct (Create c held r) as [[cm' err] r'].
  - destruct (decide (UID (cm_ObjectMeta held) = "")); [done|].
    by destruct (Update c held r) as [[cm' err] r'].
Qed.

(** C10. Handed a ConfigMap whose Data map is nil, [New] replaces the whole
    ObjectMeta by [ObjectMeta()], whatever UID the ConfigMap carried, so the
    UID it holds is empty and the next [Save] issues [Create]. *)
Theorem New_nil_Data_resets_metadata {R : Type} (c : ConfigMapInterface R)
    (meta : ObjectMetaT) (r : R) (log : list call) :
  let a := New (recording c) (Some (mkConfigMap meta None)) in
  cm a = mkConfigMap ObjectMeta (Some ∅)
  ∧ UID (cm_ObjectMeta (cm a)) = ""
  ∧ (Save a (r, log)).2.2 = log ++ [CallCreate (mkConfigMap ObjectMeta (Some ∅))].
Proof.
  intros a. unfold a, New. simpl. split; [done|]. split; [done|].
  unfold Save. simpl.
  by destruct (Create c (mkConfigMap ObjectMeta (Some ∅)) r) as [[cm' err] r'].
Qed.

(** * Further properties of the package *)

(** ** What a call leaves alone *)

Section Frames.
Context {R : Type}.
Implicit Types a : AuthConfigMap R.

(** From [a] to [a'] the client, the metadata and every entry of the Data
    map outside [keys] are the same, and the Data map is still there. *)
Definition kept (keys : list string) a a' : Prop :=
  client a' = client a
  ∧ cm_ObjectMeta (cm a') = cm_ObjectMeta (cm a)
  ∧ Data (cm a') ≠ None
  ∧ ∀ k, k ∉ keys → Data_at a' k = Data_at a k.

(** The call returned, and kept everything outside [keys]. *)
Definition returns_keeping (keys : list string) a (o : outcome R) : Prop :=
  ∃ err a', o = Returns err a' ∧ kept keys a a'.

Lemma kept_refl keys a : Data (cm a) ≠ None → kept keys a a.
Proof. intros Hd. by repeat split. Qed.

Lemma kept_trans keys1 keys2 a1 a2 a3 :
  kept keys1 a1 a2 → kept keys2 a2 a3 → kept (keys1 ++ keys2) a1 a3.
Proof.
  intros (Hc1 & Hm1 & _ & Hk1) (Hc2 & Hm2 & Hd2 & Hk2).
  split; [congruence|]. split; [congruence|]. split; [done|].
  intros k Hk. apply not_elem_of_app in Hk as [Hk1' Hk2'].
  rewrite Hk2 by done. by apply Hk1.
Qed.

Lemma Data_assign_kept a key v :
  Data (cm a) ≠ None →
  ∃ a', Data_assign a key v = Some a' ∧ kept [key] a a'.
Proof.
  intros Hd. destruct (Data_assign_is_Some a key v Hd) as [a' Ha'].
  exists a'. split; [done|].
  destruct (Data_assign_frame _ _ _ _ Ha') as (Hc & Hm & Hd').
  split; [done|]. split; [done|]. split; [done|].
  intros k Hk. apply (Data_at_assign_ne _ _ _ _ _ Ha').
  intros ->. apply Hk, list_elem_of_singleton. done.
Qed.

Lemma returns_keeping_error keys a e :
  Data (cm a) ≠ None → returns_keeping keys a (Returns (Some e) a).
Proof. intros Hd. exists (Some e), a. split; [done | by apply kept_refl]. Qed.

Lemma setAccounts_keeps `{!YAML string} a accs :
  Data (cm a) ≠ None → returns_keeping [accountsData] a (setAccounts a accs).
Proof.
  intros Hd. unfold setAccounts.
  destruct (Marshal accs) as [bs|e]; [|by apply returns_keeping_error].
  destruct (Data_assign_kept a accountsData bs Hd) as (a' & -> & Hk).
  by exists None, a'.
Qed.

Lemma AddAccount_keeps `{!YAML string} a account :
  Data (cm a) ≠ None → returns_keeping [accountsData] a (AddAccount a account).
Proof.
  intros Hd. unfold AddAccount.
  destruct (accounts a) as [accs|e]; [|by apply returns_keeping_error].
  by apply setAccounts_keeps.
Qed.

Lemma RemoveAccount_keeps `{!YAML string} a account :
  Data (cm a) ≠ None →
  returns_keeping [accountsData] a (RemoveAccount a account).
Proof.
  intros Hd. unfold RemoveAccount.
  destruct (accounts a) as [accs|e]; [|by apply returns_keeping_error].
  destruct (RemoveAccount_loop account accs [] false) as [newaccounts found].
  destruct found; simpl;
    [by apply setAccounts_keeps | by apply returns_keeping_error].
Qed.

Lemma update_keys_keeps {A : Type} `{!YAML A} a (roles users : list A) :
  Data (cm a) ≠ None →
  returns_keeping [rolesData; usersData] a (update_keys a roles users).
Proof.
  intros Hd. unfold update_keys.
  destruct (Marshal roles) as [br|e]; [|by apply returns_keeping_error].
  destruct (Data_assign_kept a rolesData br Hd) as (a1 & -> & Hk1).
  destruct (Marshal users) as [bu|e].
  - destruct (Data_assign_kept a1 usersData bu (proj1 (proj2 (proj2 Hk1))))
      as (a2 & -> & Hk2).
    exists None, a2. split; [done|].
    apply (kept_trans [rolesData] [usersData] a a1 a2 Hk1 Hk2).
  - eexists _, a1. split; [done|].
    apply (kept_trans [rolesData] [usersData] a a1 a1 Hk1).
    apply kept_refl, Hk1.
Qed.
End Frames.

Section MapIdentityFrames.
Import MapIdentityRev.
Context {R : Type} `{!YAML MapIdentity}.
Implicit Types a : AuthConfigMap R.

Lemma setIdentities_keeps a identities :
  Data (cm a) ≠ None →
  returns_keeping [rolesData; usersData] a (setIdentities a identities).
Proof.
  intros Hd. unfold setIdentities.
  destruct (setIdentities_loop identities [] []) as [users roles].
  by apply update_keys_keeps.
Qed.

Lemma AddIdentity_keeps a arn username groups :
  Data (cm a) ≠ None →
  returns_keeping [rolesData; usersData] a (AddIdentity a arn username groups).
Proof.
  intros Hd. unfold AddIdentity.
  destruct (Identities a) as [ids|e]; [|by apply returns_keeping_error].
  by apply setIdentities_keeps.
Qed.

Lemma RemoveIdentity_loop_keeps a arn all identities i rest newidentities :
  Data (cm a) ≠ None →
  match RemoveIdentity_loop a arn all identities i rest newidentities with
  | inl o => returns_keeping [rolesData; usersData] a o
  | inr _ => True
  end.
Proof.
  intros Hd. revert i newidentities.
  induction rest as [|m rest IH]; intros i newidentities;
    cbn [RemoveIdentity_loop]; [done|].
  destruct (decide (ARN m = arn)), all; simpl; try apply IH.
  by apply setIdentities_keeps.
Qed.

Lemma RemoveIdentity_keeps a arn all :
  Data (cm a) ≠ None →
  returns_keeping [rolesData; usersData] a (RemoveIdentity a arn all).
Proof.
  intros Hd. unfold RemoveIdentity.
  destruct (Identities a) as [ids|e]; [|by apply returns_keeping_error].
  pose proof (RemoveIdentity_loop_keeps a arn all ids 0 ids [] Hd) as Hloop.
  destruct (RemoveIdentity_loop a arn all ids 0 ids []) as [o|newidentities];
    [done|].
  destruct all; simpl;
    [by apply setIdentities_keeps | by apply returns_keeping_error].
Qed.
End MapIdentityFrames.

Section IamFrames.
Import IamRev.
Context {R : Type} `{!IAM} `{!YAML Identity}.
Implicit Types a : AuthConfigMap R.

Lemma iam_setIdentities_keeps a identities :
  Data (cm a) ≠ None →
  returns_keeping [rolesData; usersData] a (setIdentities a identities).
Proof.
  intros Hd. unfold setIdentities.
  destruct (setIdentities_loop identities [] []) as [[users roles]|e];
    [by apply update_keys_keeps | by apply returns_keeping_error].
Qed.

Lemma iam_AddIdentity_keeps a ident :
  Data (cm a) ≠ None →
  returns_keeping [rolesData; usersData] a (AddIdentity a ident).
Proof.
  intros Hd. unfold AddIdentity.
  destruct (Identities a) as [ids|e]; [|by apply returns_keeping_error].
  destruct (Identity_Valid ident) as [e|];
    [by apply returns_keeping_error | by apply iam_setIdentities_keeps].
Qed.

Lemma iam_RemoveIdentity_loop_keeps a arn all identities i rest newidentities :
  Data (cm a) ≠ None →
  match RemoveIdentity_loop a arn all identities i rest newidentities with
  | inl o => returns_keeping [rolesData; usersData] a o
  | inr _ => True
  end.
Proof.
  intros Hd. revert i newidentities.
  induction rest as [|m rest IH]; intros i newidentities;
    cbn [RemoveIdentity_loop]; [done|].
  destruct (Identity_ARN m) as [p|e]; [|by apply returns_keeping_error].
  destruct (decide (ARN_String p = ARN_String arn)), all; simpl; try apply IH.
  by apply iam_setIdentities_keeps.
Qed.

Lemma iam_RemoveIdentity_keeps a arn all :
  Data (cm a) ≠ None →
  returns_keeping [rolesData; usersData] a (RemoveIdentity a arn all).
Proof.
  intros Hd. unfold RemoveIdentity.
  destruct (Identities a) as [ids|e]; [|by apply returns_keeping_error].
  pose proof (iam_RemoveIdentity_loop_keeps a arn all ids 0 ids [] Hd) as Hloop.
  destruct (RemoveIdentity_loop a arn all ids 0 ids []) as [o|newidentities];
    [done|].
  destruct all; simpl;
    [by apply iam_setIdentities_keeps | by apply returns_keeping_error].
Qed.
End IamFrames.

Lemma calls_keep_the_rest_aux {R : Type} `{!YAML string}
    `{!YAML MapIdentityRev.MapIdentity}
    `{!IamRev.IAM} `{!YAML IamRev.Identity} (a : AuthConfigMap R) :
  Data (cm a) ≠ None →
  (∀ account, returns_keeping [accountsData] a (AddAccount a account))
  ∧ (∀ account, returns_keeping [accountsData] a (RemoveAccount a account))
  ∧ (∀ arn username groups,
        returns_keeping [rolesData; usersData] a
          (MapIdentityRev.AddIdentity a arn username groups))
  ∧ (∀ arn all,
        returns_keeping [rolesData; usersData] a
          (MapIdentityRev.RemoveIdentity a arn all))
  ∧ (∀ ident,
        returns_keeping [rolesData; usersData] a (IamRev.AddIdentity a ident))
  ∧ (∀ arn all,
        returns_keeping [rolesData; usersData] a
          (IamRev.RemoveIdentity a arn all)).
Proof.
  intros Hd.
  split; [intros; by apply AddAccount_keeps|].
  split; [intros; by apply RemoveAccount_keeps|].
  split; [intros; by apply AddIdentity_keeps|].
  split; [intros; by apply RemoveIdentity_keeps|].
  split; [intros; by apply iam_AddIdentity_keeps|].
  intros; by apply iam_RemoveIdentity_keeps.
Qed.

(** X1. On a store whose Data map is there, every call returns (it does not
    panic) and leaves the client, the metadata and the foreign keys alone:
    the account operations touch nothing but [mapAccounts], the identity
    operations of both revisions nothing but [mapRoles] and [mapUsers].  This
    holds whatever the YAML library does. *)
Theorem calls_keep_the_rest {R : Type} `{!YAML string}
    `{!YAML MapIdentityRev.MapIdentity}
    `{!IamRev.IAM} `{!YAML IamRev.Identity} (a : AuthConfigMap R) :
  Data (cm a) ≠ None →
  (∀ account, returns_keeping [accountsData] a (AddAccount a account))
  ∧ (∀ account, returns_keeping [accountsData] a (RemoveAccount a account))
  ∧ (∀ arn username groups,
        returns_keeping [rolesData; usersData] a
          (MapIdentityRev.AddIdentity a arn username groups))
  ∧ (∀ arn all,
        returns_keeping [rolesData; usersData] a
          (MapIdentityRev.RemoveIdentity a arn all))
  ∧ (∀ ident,
        returns_keeping [rolesData; usersData] a (IamRev.AddIdentity a ident))
  ∧ (∀ arn all,
        returns_keeping [rolesData; usersData] a
          (IamRev.RemoveIdentity a arn all)).
Proof.
  intros Hd.
  split; [intros; by apply AddAccount_keeps|].
  split; [intros; by apply RemoveAccount_keeps|].
  split; [intros; by apply AddIdentity_keeps|].
  split; [intros; by apply RemoveIdentity_keeps|].
  split; [intros; by apply iam_AddIdentity_keeps|].
  intros; by apply iam_RemoveIdentity_keeps.
Qed.

Section Reachable.
Context {R : Type} `{!YAML string} `{!YAML MapIdentityRev.MapIdentity}
  `{!IamRev.IAM} `{!YAML IamRev.Identity}.
Implicit Types a : AuthConfigMap R.

(** [o] is the outcome of one call of a mutating method on [a]. *)
Inductive call_on a : outcome R → Prop :=
  | call_AddAccount account : call_on a (AddAccount a account)
  | call_RemoveAccount account : call_on a (RemoveAccount a account)
  | call_AddIdentity arn username groups :
      call_on a (MapIdentityRev.AddIdentity a arn username groups)
  | call_RemoveIdentity arn all :
      call_on a (MapIdentityRev.RemoveIdentity a arn all)
  | call_iam_AddIdentity ident : call_on a (IamRev.AddIdentity a ident)
  | call_iam_RemoveIdentity arn all :
      call_on a (IamRev.RemoveIdentity a arn all).

(** [a] is what some sequence of calls, failed ones included, makes of
    [start]. *)
Inductive after_calls (start : AuthConfigMap R) : AuthConfigMap R → Prop :=
  | after_no_call : after_calls start start
  | after_one_more a err a' :
      after_calls start a → call_on a (Returns err a') → after_calls start a'.

Lemma call_on_keeps a o :
  Data (cm a) ≠ None → call_on a o →
  returns_keeping [accountsData; rolesData; usersData] a o.
Proof.
  intros Hd Hcall.
  assert (∀ keys, returns_keeping keys a o →
                  (∀ k, k ∈ keys → k ∈ [accountsData; rolesData; usersData]) →
                  returns_keeping [accountsData; rolesData; usersData] a o)
    as Hweaken.
  { intros keys (err & a' & -> & Hc & Hm & Hd' & Hk) Hsub.
    exists err, a'. split; [done|]. split; [done|]. split; [done|].
    split; [done|]. intros k Hnot. apply Hk. intros Hin. by apply Hnot, Hsub. }
  destruct (calls_keep_the_rest_aux a Hd) as (H1 & H2 & H3 & H4 & H5 & H6).
  destruct Hcall.
  - apply (Hweaken _ (H1 _)). intros k; rewrite !list_elem_of_In; simpl; tauto.
  - apply (Hweaken _ (H2 _)). intros k; rewrite !list_elem_of_In; simpl; tauto.
  - apply (Hweaken _ (H3 _ _ _)). intros k; rewrite !list_elem_of_In; simpl; tauto.
  - apply (Hweaken _ (H4 _ _)). intros k; rewrite !list_elem_of_In; simpl; tauto.
  - apply (Hweaken _ (H5 _)). intros k; rewrite !list_elem_of_In; simpl; tauto.
  - apply (Hweaken _ (H6 _ _)). intros k; rewrite !list_elem_of_In; simpl; tauto.
Qed.
End Reachable.

(** X2. Whatever ConfigMap [New] was handed (nil, with a nil Data map, or
    with data), after any sequence of calls of the mutating methods the store
    still has the client and the metadata [New] gave it, UID included, and
    the next call does not panic.  The mutating methods therefore never
    change what [Save] will decide. *)
Theorem after_New_calls_never_panic {R : Type} `{!YAML string}
    `{!YAML MapIdentityRev.MapIdentity}
    `{!IamRev.IAM} `{!YAML IamRev.Identity}
    (c : ConfigMapInterface R) (cm0 : option ConfigMap) (a : AuthConfigMap R) :
  after_calls (New c cm0) a →
  client a = c
  ∧ cm_ObjectMeta (cm a) = cm_ObjectMeta (cm (New c cm0))
  ∧ Data (cm a) ≠ None
  ∧ ∀ o, call_on a o → ∃ err a', o = Returns err a'.
Proof.
  intros Hreach.
  assert (client a = c
          ∧ cm_ObjectMeta (cm a) = cm_ObjectMeta (cm (New c cm0))
          ∧ Data (cm a) ≠ None) as (Hc & Hm & Hd).
  { induction Hreach as [|a err a' _ IH Hcall].
    - split; [done|]. split; [done|].
      unfold New. destruct cm0 as [[meta [m|]]|]; done.
    - destruct IH as (Hc & Hm & Hd).
      destruct (call_on_keeps a _ Hd Hcall)
        as (err' & a'' & [= <- <-] & Hc' & Hm' & Hd' & _).
      split; [congruence|]. split; [congruence | done]. }
  split; [done|]. split; [done|]. split; [done|].
  intros o Hcall.
  destruct (call_on_keeps a o Hd Hcall) as (err & a' & -> & _).
  by exists err, a'.
Qed.

(** ** Accounts *)

Section MoreAccountFacts.
Context {R : Type} `{!YAML string} (keeps : string → Prop)
  `{!YAMLKeeps string keeps}.
Implicit Types a : AuthConfigMap R.

(** Writing the account key twice is writing it once with the second list. *)
Lemma setAccounts_overwrite a a1 accs1 accs2 :
  Forall keeps accs2 →
  setAccounts a accs1 = Returns None a1 →
  setAccounts a1 accs2 = setAccounts a accs2.
Proof.
  intros Hk. unfold setAccounts.
  destruct (Marshal_kept accs2 Hk) as (bs2 & -> & _).
  destruct (Marshal accs1) as [bs1|e]; [|done].
  destruct a as [c [meta [m|]]]; unfold Data_assign; simpl; [|done].
  intros [= <-]. simpl. by rewrite insert_insert_eq.
Qed.
End MoreAccountFacts.

Lemma List_NewString_ext (l1 l2 : list string) :
  (∀ x, x ∈ l1 ↔ x ∈ l2) → List (NewString l1) = List (NewString l2).
Proof.
  intros Hsame. f_equal. apply set_eq. intros x.
  unfold NewString. by rewrite !elem_of_list_to_set.
Qed.

(** X3. [RemoveAccount] of a stored account returns no error and leaves
    the other accounts in the order they had, every occurrence of the account
    gone (the list is not sorted again); of an account that is not stored it
    returns the not-found error and the receiver is unchanged. *)
Theorem RemoveAccount_removes {R : Type} `{!YAML string}
    (keeps : string → Prop) `{!YAMLKeeps string keeps}
    (a : AuthConfigMap R) (account : string) (stored : list string) :
  Data (cm a) ≠ None →
  accounts a = Ok stored →
  (account ∈ stored →
   ∃ a', RemoveAccount a account = Returns None a'
         ∧ accounts a' = Ok (filter (λ acc, acc ≠ account) stored))
  ∧ (account ∉ stored →
     RemoveAccount a account = Returns (Some (ErrAccountNotFound account)) a).
Proof.
  intros Hd Hacc. unfold RemoveAccount.
  rewrite Hacc, RemoveAccount_loop_spec. simpl. split; intros Hin.
  - rewrite bool_decide_eq_true_2 by done. simpl.
    destruct (setAccounts_kept keeps a (filter (λ acc, acc ≠ account) stored)
                Hd) as (a' & Hrun & Hacc' & _).
    { eapply Forall_sublist; [apply sublist_filter|].
      by eapply accounts_kept. }
    by exists a'.
  - by rewrite bool_decide_eq_false_2.
Qed.

(** X4. Two accounts that the YAML library keeps (strings of valid UTF-8)
    can be added in either order: both orders succeed and end in the same
    store. *)
Theorem AddAccount_commutes {R : Type} `{!YAML string}
    (keeps : string → Prop) `{!YAMLKeeps string keeps}
    (a : AuthConfigMap R) (x y : string) (stored : list string) :
  Data (cm a) ≠ None →
  accounts a = Ok stored →
  keeps x → keeps y →
  ∃ a1 b1 a2, AddAccount a x = Returns None a1
              ∧ AddAccount a1 y = Returns None a2
              ∧ AddAccount a y = Returns None b1
              ∧ AddAccount b1 x = Returns None a2.
Proof.
  intros Hd Hacc Hkx Hky.
  pose proof (accounts_kept keeps a stored Hacc) as Hks.
  destruct (AddAccount_kept keeps a x stored Hd Hacc Hkx)
    as (a1 & Hx & Hacc1 & Hd1).
  destruct (AddAccount_kept keeps a y stored Hd Hacc Hky)
    as (b1 & Hy & Hacc2 & Hd2).
  destruct (AddAccount_kept keeps a1 y _ Hd1 Hacc1 Hky) as (a2 & Hxy & _).
  exists a1, b1, a2. split; [done|]. split; [done|]. split; [done|].
  rewrite <- Hxy. unfold AddAccount in *.
  rewrite Hacc in Hx, Hy. rewrite Hacc1, Hacc2. cbv zeta in *.
  rewrite (setAccounts_overwrite keeps _ _ _ _ (List_NewString_kept keeps _ _
             (List_NewString_kept keeps _ _ Hks Hky) Hkx) Hy).
  rewrite (setAccounts_overwrite keeps _ _ _ _ (List_NewString_kept keeps _ _
             (List_NewString_kept keeps _ _ Hks Hkx) Hky) Hx).
  f_equal. apply List_NewString_ext. intros z.
  rewrite !elem_of_app, !List_NewString_elem_of, !elem_of_app.
  rewrite !list_elem_of_singleton. tauto.
Qed.

(** X5. A key that is missing from the Data map, or holds the empty text,
    reads as the empty list, the YAML library decoding the empty document to
    the nil slice: listing succeeds with nothing, and the removals that need
    a match return their not-found error without touching the receiver. *)
Theorem missing_keys_read_as_empty {R : Type}
    `{!YAML string} `{!YAML MapIdentityRev.MapIdentity}
    `{!IamRev.IAM} `{!YAML IamRev.Identity}
    (a : AuthConfigMap R) :
  Unmarshal (A:=string) "" = Ok [] →
  Unmarshal (A:=MapIdentityRev.MapIdentity) "" = Ok [] →
  Unmarshal (A:=IamRev.Identity) "" = Ok [] →
  (Data_at a accountsData = "" →
   accounts a = Ok []
   ∧ ∀ account,
       RemoveAccount a account = Returns (Some (ErrAccountNotFound account)) a)
  ∧ (Data_at a rolesData = "" → Data_at a usersData = "" →
     Identities (A:=MapIdentityRev.MapIdentity) a = Ok []
     ∧ Identities (A:=IamRev.Identity) a = Ok []
     ∧ (∀ arn, MapIdentityRev.RemoveIdentity a arn false
               = Returns (Some (ErrIdentityNotFound arn)) a)
     ∧ (∀ arn, IamRev.RemoveIdentity a arn false
               = Returns (Some (ErrIdentityNotFound (IamRev.ARN_String arn))) a)).
Proof.
  intros Hstrings Hmaps Hids. split.
  - intros Hk.
    assert (accounts a = Ok []) as Hacc.
    { unfold accounts. by rewrite Hk, Hstrings. }
    split; [done|]. intros account. unfold RemoveAccount. by rewrite Hacc.
  - intros Hr Hu.
    assert (Identities (A:=MapIdentityRev.MapIdentity) a = Ok []) as H1.
    { unfold Identities. by rewrite Hr, Hu, !Hmaps. }
    assert (Identities (A:=IamRev.Identity) a = Ok []) as H2.
    { unfold Identities. by rewrite Hr, Hu, !Hids. }
    split; [done|]. split; [done|]. split; intros arn.
    + unfold MapIdentityRev.RemoveIdentity. by rewrite H1.
    + unfold IamRev.RemoveIdentity. by rewrite H2.
Qed.

(** Reading the identity keys of [a] fails with [e] at [key]: at [mapRoles],
    or at [mapUsers] when [mapRoles] decodes. *)
Definition decode_fails {R A : Type} `{!YAML A} (a : AuthConfigMap R)
    (key : string) (e : error) : Prop :=
  (key = rolesData ∧ Unmarshal (A:=A) (Data_at a rolesData) = Err e)
  ∨ (key = usersData
     ∧ (∃ roles : list A, Unmarshal (Data_at a rolesData) = Ok roles)
     ∧ Unmarshal (A:=A) (Data_at a usersData) = Err e).

Lemma decode_fails_Identities {R A : Type} `{!YAML A} (a : AuthConfigMap R)
    (key : string) (e : error) :
  decode_fails (A:=A) a key e →
  Identities (A:=A) a = Err (ErrWrapf e "unmarshalling %q" key).
Proof.
  unfold Identities.
  by intros [[-> ->]|(-> & [roles ->] & ->)].
Qed.

(** X6. A key whose text does not decode blocks the calls that read it and
    is never overwritten: the account operations return the wrapped decode
    error of [mapAccounts], the identity operations of both revisions that of
    [mapRoles] or, when [mapRoles] decodes, that of [mapUsers]; the receiver
    is unchanged. *)
Theorem undecodable_key_blocks_calls {R : Type} `{!YAML string}
    `{!YAML MapIdentityRev.MapIdentity}
    `{!IamRev.IAM} `{!YAML IamRev.Identity}
    (a : AuthConfigMap R) (key : string) (e : error) :
  (Unmarshal (A:=string) (Data_at a accountsData) = Err e →
   ∀ account,
     AddAccount a account
     = Returns (Some (ErrWrap e "unmarshalling mapAccounts")) a
     ∧ RemoveAccount a account
       = Returns (Some (ErrWrap e "unmarshalling mapAccounts")) a)
  ∧ (decode_fails (A:=MapIdentityRev.MapIdentity) a key e →
     (∀ arn username groups,
         MapIdentityRev.AddIdentity a arn username groups
         = Returns (Some (ErrWrapf e "unmarshalling %q" key)) a)
     ∧ (∀ arn all,
           MapIdentityRev.RemoveIdentity a arn all
           = Returns (Some (ErrWrapf e "unmarshalling %q" key)) a))
  ∧ (decode_fails (A:=IamRev.Identity) a key e →
     (∀ ident,
         IamRev.AddIdentity a ident
         = Returns (Some (ErrWrapf e "unmarshalling %q" key)) a)
     ∧ (∀ arn all,
           IamRev.RemoveIdentity a arn all
           = Returns (Some (ErrWrapf e "unmarshalling %q" key)) a)).
Proof.
  split; [|split].
  - intros He account. unfold AddAccount, RemoveAccount, accounts.
    by rewrite He.
  - intros Hids%decode_fails_Identities. split; intros.
    + unfold MapIdentityRev.AddIdentity. by rewrite Hids.
    + unfold MapIdentityRev.RemoveIdentity. by rewrite Hids.
  - intros Hids%decode_fails_Identities. split; intros.
    + unfold IamRev.AddIdentity. by rewrite Hids.
    + unfold IamRev.RemoveIdentity. by rewrite Hids.
Qed.

(** ** What the [MapIdentity] revision writes *)

Section Filing.
Import MapIdentityRev.
Context {R : Type} `{!YAML MapIdentity}.

(** [o] is the outcome of re-encoding the list [l] on [a]: as soon as the
    encoder accepts the roles of [l] and the users of [l], the call returns
    no error, the two keys hold these two encodings, and the account key is
    the one [a] had. *)
Definition files (a : AuthConfigMap R) (l : list MapIdentity) (o : outcome R)
  : Prop :=
  ∀ br bu, Marshal (filter Role l) = Ok br → Marshal (filter User l) = Ok bu →
           ∃ a', o = Returns None a'
                 ∧ Data_at a' rolesData = br ∧ Data_at a' usersData = bu
                 ∧ Data_at a' accountsData = Data_at a accountsData.

Lemma setIdentities_is_filing (a : AuthConfigMap R) (l : list MapIdentity) :
  Data (cm a) ≠ None → files a l (setIdentities a l).
Proof.
  intros Hd br bu Hr Hu. rewrite MapIdentityFacts.setIdentities_files.
  destruct (update_keys_encoded a _ _ br bu Hd Hr Hu)
    as (a' & Hrun & Hbr & Hbu & Hacc & _).
  by exists a'.
Qed.
End Filing.

(** X7. The [MapIdentity] revision re-classifies on every write and files
    only what its own [Role] and [User] accept.  On a store whose keys decode
    to [ids], [AddIdentity] re-encodes [ids] with the new record at the end,
    [RemoveIdentity] with [all = true] the records of [ids] with another ARN,
    and [RemoveIdentity] with [all = false] the list [ids] without the first
    record of that ARN; each time the roles key receives the records of that
    list that [Role] accepts and the users key those that [User] accepts.  A
    record that neither accepts, stored or new, is in neither key
    afterwards. *)
Theorem MapIdentity_calls_file_by_own_kind {R : Type}
    `{!YAML MapIdentityRev.MapIdentity}
    (a : AuthConfigMap R) (ids : list MapIdentityRev.MapIdentity) :
  Data (cm a) ≠ None →
  Identities a = Ok ids →
  (∀ arn username groups,
      files a
        (ids ++ [MapIdentityRev.mkMapIdentity
                   (MapIdentityRev.mkIdentity username groups) arn])
        (MapIdentityRev.AddIdentity a arn username groups))
  ∧ (∀ arn,
        files a (filter (λ m, MapIdentityRev.ARN m ≠ arn) ids)
          (MapIdentityRev.RemoveIdentity a arn true))
  ∧ (∀ arn pre r post,
        ids = pre ++ r :: post →
        Forall (λ m, MapIdentityRev.ARN m ≠ arn) pre →
        MapIdentityRev.ARN r = arn →
        files a (pre ++ post) (MapIdentityRev.RemoveIdentity a arn false))
  ∧ (∀ (l : list MapIdentityRev.MapIdentity) m,
        MapIdentityRev.Role m = false → MapIdentityRev.User m = false →
        m ∉ filter MapIdentityRev.Role l ++ filter MapIdentityRev.User l).
Proof.
  intros Hd Hids. split; [|split; [|split]].
  - intros arn username groups.
    rewrite (MapIdentityFacts.AddIdentity_files a ids _ _ _ Hids).
    by apply setIdentities_is_filing.
  - intros arn.
    rewrite (MapIdentityFacts.RemoveIdentity_every_files a ids _ Hids).
    by apply setIdentities_is_filing.
  - intros arn pre r post Hcut Hpre Hr. rewrite Hcut in Hids.
    rewrite (MapIdentityFacts.RemoveIdentity_first_files a arn pre r post Hids
               Hpre Hr).
    by apply setIdentities_is_filing.
  - intros l m Hrole Huser.
    rewrite elem_of_app, !list_elem_of_filter.
    rewrite Hrole, Huser. by intros [[? _]|[? _]].
Qed.

(** ** What the [MapIdentity] revision reads after it wrote *)

(** X15. The [MapIdentity] revision does not read back what it writes.  Its
    records are encoded as structs, with the ARN in a field without tag, and
    decoded by [UnmarshalJSON], which wants the ARN under [rolearn] or
    [userarn].  So after [setIdentities] has filed any record, [Identities]
    fails with the "missing arn" error of [UnmarshalJSON], on [mapRoles] when
    a role was filed, else on [mapUsers]; only when nothing was filed does it
    succeed, with the empty list.  In particular [AddIdentity] of a record
    that [Role] accepts, on a store whose keys decode, returns no error and
    leaves a store that [Identities] cannot list. *)
Theorem MapIdentity_written_is_not_read {R : Type}
    `{!MapIdentityJSON.JSON} `{!YAML MapIdentityJSON.RawMessage}
    (keeps : MapIdentityJSON.RawMessage → Prop)
    `{!YAMLKeeps MapIdentityJSON.RawMessage keeps}
    (a : AuthConfigMap R) :
  (∀ m, keeps (MapIdentityJSON.Marshal_struct m)) →
  MapIdentityJSONFacts.struct_has_no_arn_key →
  Data (cm a) ≠ None →
  (∀ identities, ∃ a',
      MapIdentityRev.setIdentities (YAML0 := MapIdentityJSON.yaml_MapIdentity)
        a identities = Returns None a'
      ∧ Identities (YAML0 := MapIdentityJSON.yaml_MapIdentity) a'
        = match filter MapIdentityRev.Role identities,
                filter MapIdentityRev.User identities with
          | _ :: _, _ =>
              Err (ErrWrapf MapIdentityJSONFacts.missing_arn "unmarshalling %q"
                     rolesData)
          | [], _ :: _ =>
              Err (ErrWrapf MapIdentityJSONFacts.missing_arn "unmarshalling %q"
                     usersData)
          | [], [] => Ok []
          end)
  ∧ (∀ ids arn username groups,
        Identities (YAML0 := MapIdentityJSON.yaml_MapIdentity) a = Ok ids →
        MapIdentityRev.Role
          (MapIdentityRev.mkMapIdentity
             (MapIdentityRev.mkIdentity username groups) arn) →
        ∃ a',
          MapIdentityRev.AddIdentity
            (YAML0 := MapIdentityJSON.yaml_MapIdentity) a arn username groups
          = Returns None a'
          ∧ Identities (YAML0 := MapIdentityJSON.yaml_MapIdentity) a'
            = Err (ErrWrapf MapIdentityJSONFacts.missing_arn "unmarshalling %q"
                     rolesData)).
Proof.
  intros Hk Hs Hd.
  assert (∀ identities, ∃ a',
             MapIdentityRev.setIdentities
               (YAML0 := MapIdentityJSON.yaml_MapIdentity) a identities
             = Returns None a'
             ∧ Identities (YAML0 := MapIdentityJSON.yaml_MapIdentity) a'
               = match filter MapIdentityRev.Role identities,
                       filter MapIdentityRev.User identities with
                 | _ :: _, _ =>
                     Err (ErrWrapf MapIdentityJSONFacts.missing_arn
                            "unmarshalling %q" rolesData)
                 | [], _ :: _ =>
                     Err (ErrWrapf MapIdentityJSONFacts.missing_arn
                            "unmarshalling %q" usersData)
                 | [], [] => Ok []
                 end) as Hset.
  { intros identities. rewrite MapIdentityFacts.setIdentities_files.
    destruct (MapIdentityJSONFacts.Marshal_then_Unmarshal keeps
                (filter MapIdentityRev.Role identities) Hs Hk)
      as (br & Hmr & Hur).
    destruct (MapIdentityJSONFacts.Marshal_then_Unmarshal keeps
                (filter MapIdentityRev.User identities) Hs Hk)
      as (bu & Hmu & Huu).
    destruct (update_keys_encoded (YAML0 := MapIdentityJSON.yaml_MapIdentity)
                a _ _ br bu Hd Hmr Hmu) as (a' & Hrun & Hbr & Hbu & _).
    exists a'. split; [exact Hrun|].
    unfold Identities. rewrite Hbr, Hbu, Hur.
    destruct (filter MapIdentityRev.Role identities); [|done].
    rewrite Huu. by destruct (filter MapIdentityRev.User identities). }
  split; [exact Hset|].
  intros ids arn username groups Hids Hrole.
  rewrite (MapIdentityFacts.AddIdentity_files a ids _ _ _ Hids).
  destruct (Hset (ids ++ [MapIdentityRev.mkMapIdentity
                            (MapIdentityRev.mkIdentity username groups) arn]))
    as (a' & Hrun & Hlist).
  exists a'. split; [exact Hrun|]. rewrite Hlist.
  set (r := MapIdentityRev.mkMapIdentity
              (MapIdentityRev.mkIdentity username groups) arn) in *.
  assert (r ∈ filter MapIdentityRev.Role (ids ++ [r])) as Hin.
  { apply list_elem_of_filter. split; [exact Hrole|].
    apply elem_of_app. right. by apply list_elem_of_singleton. }
  destruct (filter MapIdentityRev.Role (ids ++ [r]));
    [by apply elem_of_nil in Hin | done].
Qed.

(** ** Identities of the [iam.Identity] revision, by principal *)

Section ListSplitting.
Context {A : Type} (P : A → Prop) `{!∀ x, Decision (P x)}.

(** The first element a filter keeps cuts the list in two. *)
Lemma filter_first (l : list A) (x : A) (more : list A) :
  filter P l = x :: more →
  ∃ pre post, l = pre ++ x :: post
              ∧ Forall (λ y, ¬ P y) pre ∧ P x ∧ filter P post = more.
Proof.
  induction l as [|y l IH]; [done|].
  rewrite filter_cons. destruct (decide (P y)) as [Hy|Hy].
  - intros [= -> <-]. exists [], l. by repeat split.
  - intros Hfilter. destruct (IH Hfilter) as (pre & post & -> & Hpre & Hx & Hpost).
    exists (y :: pre), post. split; [done|].
    split; [by apply Forall_cons | done].
Qed.
End ListSplitting.

(** X8. On a snapshot, [RemoveIdentity] with [all = true] leaves no record
    for the principal: no record of the identity list matches it afterwards,
    a following removal with [all = false] returns the not-found error, and a
    second removal with [all = true] changes nothing in the identity list. *)
Theorem RemoveIdentity_all_leaves_none {R : Type}
    `{!IamRev.IAM} `{!YAML IamRev.Identity}
    (keeps : IamRev.Identity → Prop) `{!YAMLKeeps IamRev.Identity keeps}
    (a : AuthConfigMap R) (roles users : list IamRev.Identity)
    (arn : IamRev.ARN) :
  IamFacts.snapshot a roles users →
  ∃ a' ids,
    IamRev.RemoveIdentity a arn true = Returns None a'
    ∧ Identities a' = Ok ids
    ∧ filter (λ j, IamFacts.matches arn j = true) ids = []
    ∧ IamRev.RemoveIdentity a' arn false
      = Returns (Some (ErrIdentityNotFound (IamRev.ARN_String arn))) a'
    ∧ ∃ a'', IamRev.RemoveIdentity a' arn true = Returns None a''
             ∧ Identities a'' = Ok ids.
Proof.
  intros Hsnap.
  destruct (IamFacts.iam_RemoveIdentity_every_kept keeps a roles users arn Hsnap)
    as (a' & roles' & users' & Hrun & Hsnap' & Hids & _).
  assert (Forall (λ j, IamFacts.matches arn j = false) (roles' ++ users'))
    as Hnone.
  { rewrite Hids. apply Forall_filter_self. }
  exists a', (roles' ++ users'). split; [done|].
  split; [by apply Identities_stores, Hsnap'|].
  split.
  { apply filter_none. eapply Forall_impl; [exact Hnone|].
    intros j Hj Hm. by rewrite Hj in Hm. }
  split; [by apply (IamFacts.iam_RemoveIdentity_absent a' roles' users')|].
  destruct (IamFacts.iam_RemoveIdentity_every_kept keeps a' roles' users' arn
              Hsnap')
    as (a'' & roles'' & users'' & Hrun' & Hsnap'' & Hids' & _).
  exists a''. split; [done|].
  rewrite (Identities_stores _ _ _ (proj1 Hsnap'')), Hids'.
  by rewrite filter_all.
Qed.

(** X9. On a snapshot that holds records for the principal,
    [RemoveIdentity] with [all = false] removes one record and no more: the
    identity list is one shorter and the records that match the principal
    are the former matches without the first, so later duplicates stay. *)
Theorem RemoveIdentity_removes_one {R : Type}
    `{!IamRev.IAM} `{!YAML IamRev.Identity}
    (keeps : IamRev.Identity → Prop) `{!YAMLKeeps IamRev.Identity keeps}
    (a : AuthConfigMap R) (roles users : list IamRev.Identity)
    (arn : IamRev.ARN) (first : IamRev.Identity)
    (more : list IamRev.Identity) :
  IamFacts.snapshot a roles users →
  filter (λ j, IamFacts.matches arn j = true) (roles ++ users) = first :: more →
  ∃ a' ids,
    IamRev.RemoveIdentity a arn false = Returns None a'
    ∧ Identities a' = Ok ids
    ∧ S (length ids) = length (roles ++ users)
    ∧ filter (λ j, IamFacts.matches arn j = true) ids = more.
Proof.
  intros Hsnap Hget.
  destruct (filter_first _ _ _ _ Hget)
    as (pre & post & Hcut & Hpre & Hfirst & Hpost).
  destruct (IamFacts.iam_RemoveIdentity_first_kept keeps a roles users arn pre
              first post Hsnap Hcut)
    as (a' & roles' & users' & Hrun & Hsnap' & Hids & _); [|done|].
  { eapply Forall_impl; [exact Hpre|]. intros j Hj.
    by apply not_true_is_false. }
  exists a', (pre ++ post). split; [done|].
  split; [by rewrite (Identities_stores _ _ _ (proj1 Hsnap')), Hids|].
  split; [rewrite Hcut, !length_app; simpl; lia|].
  rewrite filter_app, Hpost.
  by rewrite (filter_none _ pre Hpre).
Qed.

(** ** [resource] on well-formed ARNs *)

Lemma Split_segment_cons (sep : ascii) (s t : string) :
  Split sep s = [s] →
  Split sep (s +:+ String sep t) = s :: Split sep t.
Proof.
  induction s as [|c s IH]; intros Hs.
  - rewrite WireFacts.app_nil_l. cbn [Split]. by rewrite Ascii.eqb_refl.
  - rewrite WireFacts.app_cons. cbn [Split] in *.
    destruct (Ascii.eqb c sep); [done|].
    destruct (Split sep s) as [|p ps] eqn:Hsplit.
    { injection Hs as <-. discriminate Hsplit. }
    injection Hs as -> ->. by rewrite IH.
Qed.

Lemma Split_concat (sep : ascii) (segs : list string) :
  segs ≠ [] →
  Forall (λ s, Split sep s = [s]) segs →
  Split sep (String.concat (String sep "") segs) = segs.
Proof.
  intros Hne Hall. induction Hall as [|s segs Hs Hall IH]; [done|].
  destruct segs as [|s' segs]; [done|].
  change (String.concat (String sep "") (s :: s' :: segs))
    with (s +:+ String sep (String.concat (String sep "") (s' :: segs))).
  rewrite (Split_segment_cons sep s _ Hs). by rewrite IH.
Qed.

(** X10. For an ARN made of colon-free fields joined by colons, [resource]
    is the sixth field, and the empty string when there are fewer than six;
    so [Role] holds exactly when the sixth field is "role" and [User] exactly
    when it is "user", whatever fields follow. *)
Theorem resource_is_sixth_field (fields : list string)
    (identity : MapIdentityRev.Identity) :
  let m := MapIdentityRev.mkMapIdentity identity (String.concat ":" fields) in
  Forall (λ s, Split ":" s = [s]) fields →
  MapIdentityRev.resource m = default "" (fields !! 5)
  ∧ MapIdentityRev.Role m = bool_decide (fields !! 5 = Some "role")
  ∧ MapIdentityRev.User m = bool_decide (fields !! 5 = Some "user").
Proof.
  intros m Hall.
  assert (MapIdentityRev.resource m = default "" (fields !! 5)) as Hres.
  { unfold MapIdentityRev.resource, m. simpl.
    destruct fields as [|s fields]; [done|].
    rewrite (Split_concat ":" (s :: fields)) by done.
    destruct (decide (length (s :: fields) < 6)) as [Hshort|_]; [|done].
    rewrite (lookup_ge_None_2 (s :: fields) 5); [done | lia]. }
  split; [done|]. unfold MapIdentityRev.Role, MapIdentityRev.User.
  rewrite Hres.
  destruct (fields !! 5) as [x|]; simpl; [|done].
  split; apply bool_decide_ext; split; congruence.
Qed.

(** ** Fetching and the node-group operations *)

(** X11. [NewFromClientSet] only reads: the remote state is what [Get] left
    and nothing is written.  An error of [Get] other than not-found is
    returned wrapped and no store is made.  Otherwise the store uses the
    ConfigMap client of the kube-system namespace, has a Data map, and holds
    the fetched ConfigMap itself (UID included) when that has a Data map, and
    the fresh aws-auth ConfigMap with an empty UID when [Get] handed back nil
    or a ConfigMap without a Data map. *)
Theorem NewFromClientSet_reads_only {R : Type} (IsNotFound : error → bool)
    (clientSet : ClientSet R) (r : R) (log : list call) :
  let fetched := (ConfigMaps_Get clientSet ObjectNamespace ObjectName r).1.1 in
  let err := (ConfigMaps_Get clientSet ObjectNamespace ObjectName r).1.2 in
  let r1 := (ConfigMaps_Get clientSet ObjectNamespace ObjectName r).2 in
  match NewFromClientSet IsNotFound (recording_set clientSet) (r, log) with
  | (Err e, st) =>
      st = (r1, log)
      ∧ ∃ e0, err = Some e0 ∧ IsNotFound e0 = false
              ∧ e = ErrWrap e0 "getting auth ConfigMap"
  | (Ok acm, st) =>
      st = (r1, log)
      ∧ (err = None ∨ ∃ e0, err = Some e0 ∧ IsNotFound e0 = true)
      ∧ client acm = recording (ConfigMaps clientSet ObjectNamespace)
      ∧ Data (cm acm) ≠ None
      ∧ (∀ held m, fetched = Some held → Data held = Some m → cm acm = held)
      ∧ (fetched = None ∨ (∃ held, fetched = Some held ∧ Data held = None) →
         cm acm = mkConfigMap ObjectMeta (Some ∅))
  end.
Proof.
  unfold NewFromClientSet. simpl.
  destruct (ConfigMaps_Get clientSet ObjectNamespace ObjectName r)
    as [[fetched err] r1]. simpl.
  assert (∀ c : ConfigMapInterface (R * list call),
             client (New c fetched) = c
             ∧ Data (cm (New c fetched)) ≠ None
             ∧ (∀ held m, fetched = Some held → Data held = Some m →
                          cm (New c fetched) = held)
             ∧ (fetched = None ∨ (∃ held, fetched = Some held ∧ Data held = None) →
                cm (New c fetched) = mkConfigMap ObjectMeta (Some ∅))) as HNew.
  { intros c. unfold New. split; [done|].
    destruct fetched as [[meta [m|]]|]; simpl.
    - split; [done|]. split; [by intros held m' [= <-] _|].
      by intros [|(held & [= <-] & ?)].
    - split; [done|]. split; [|done]. by intros held m' [= <-].
    - split; [done|]. split; [|done]. by intros held m'. }
  destruct err as [e0|].
  - destruct (IsNotFound e0) eqn:Hnf; simpl.
    + split; [done|]. split; [right; by exists e0|]. apply HNew.
    + split; [done|]. by exists e0.
  - split; [done|]. split; [by left|]. apply HNew.
Qed.

Section WriteDiscipline.
Context {R : Type}.

(** At most one request is written, a [Create] of a ConfigMap without UID or
    an [Update] of one with a UID; success means the request was written;
    and when an error comes back although a request was written, it is the
    wrapped error of [Save]. *)
Definition write_discipline (out : option failure) (saving : string)
    (writes : list call) : Prop :=
  (writes = []
   ∨ ∃ sent, (writes = [CallCreate sent] ∧ UID (cm_ObjectMeta sent) = "")
             ∨ (writes = [CallUpdate sent] ∧ UID (cm_ObjectMeta sent) ≠ ""))
  ∧ (out = None → writes ≠ [])
  ∧ (∀ f, out = Some f → writes ≠ [] → ∃ e, f = Failed (ErrWrap e saving)).

Lemma write_discipline_failed (f : failure) (saving : string) :
  write_discipline (Some f) saving [].
Proof. split; [by left|]. split; [done|]. by intros f' _ []. Qed.

Lemma save_after_recording (c : ConfigMapInterface R)
    (a : AuthConfigMap (R * list call)) (o : outcome (R * list call))
    (keys : list string) (mutating saving : string) (r : R) (log : list call) :
  returns_keeping keys a o → client a = recording c →
  ∃ out r' writes,
    save_after o mutating saving (r, log) = (Completed out, (r', log ++ writes))
    ∧ write_discipline out saving writes.
Proof.
  intros (err & a' & -> & Hc & _) Hrec. unfold save_after.
  destruct err as [e|].
  { eexists _, r, []. rewrite app_nil_r. split; [done|].
    apply write_discipline_failed. }
  unfold Save. rewrite Hc, Hrec. simpl.
  destruct (decide (UID (cm_ObjectMeta (cm a')) = "")) as [Huid|Huid].
  - destruct (Create c (cm a') r) as [[made err] r'].
    exists (match err with Some e => Some (Failed (ErrWrap e saving))
                      | None => None end), r', [CallCreate (cm a')].
    split; [by destruct err|].
    split; [right; exists (cm a'); by left|].
    split; [done|]. intros f Hf _. destruct err as [e|]; [|done].
    injection Hf as <-. by exists e.
  - destruct (Update c (cm a') r) as [[made err] r'].
    exists (match err with Some e => Some (Failed (ErrWrap e saving))
                      | None => None end), r', [CallUpdate (cm a')].
    split; [by destruct err|].
    split; [right; exists (cm a'); by right|].
    split; [done|]. intros f Hf _. destruct err as [e|]; [|done].
    injection Hf as <-. by exists e.
Qed.

Lemma NewFromClientSet_recording (IsNotFound : error → bool)
    (clientSet : ClientSet R) (r : R) (log : list call) :
  (∃ e r1, NewFromClientSet IsNotFound (recording_set clientSet) (r, log)
           = (Err e, (r1, log)))
  ∨ (∃ acm r1, NewFromClientSet IsNotFound (recording_set clientSet) (r, log)
               = (Ok acm, (r1, log))
               ∧ client acm = recording (ConfigMaps clientSet ObjectNamespace)
               ∧ Data (cm acm) ≠ None).
Proof.
  unfold NewFromClientSet. simpl.
  destruct (ConfigMaps_Get clientSet ObjectNamespace ObjectName r)
    as [[fetched err] r1]. simpl.
  assert (Data (cm (New (recording (ConfigMaps clientSet ObjectNamespace))
                      fetched)) ≠ None) as Hd.
  { unfold New. by destruct fetched as [[meta [m|]]|]. }
  destruct err as [e0|]; [destruct (IsNotFound e0)|]; simpl;
    [right|left|right]; by eauto.
Qed.
End WriteDiscipline.

(** X12. [AddNodeGroup], in both revisions and against any client: it does
    not panic, it writes at most one request (a [Create] of a ConfigMap
    without UID or an [Update] of one with a UID), it writes that request
    whenever it returns no error, and when it fails before [Save] (the fetch,
    the parsing or validation of the ARN, the mutation) nothing is written. *)
Theorem AddNodeGroup_writes_once {R : Type}
    `{!YAML MapIdentityRev.MapIdentity}
    `{!IamRev.IAM} `{!IamCalls.IAMConstructors} `{!YAML IamRev.Identity}
    (IsNotFound : error → bool) (clientSet : ClientSet R) (ng : NodeGroup)
    (r : R) (log : list call) :
  (∃ out r' writes,
      MapIdentityCalls.AddNodeGroup IsNotFound (recording_set clientSet) ng
        (r, log)
      = (Completed out, (r', log ++ writes))
      ∧ write_discipline out "saving auth ConfigMap" writes)
  ∧ (∃ out r' writes,
        IamCalls.AddNodeGroup IsNotFound (recording_set clientSet) ng (r, log)
        = (Completed out, (r', log ++ writes))
        ∧ write_discipline out "saving auth ConfigMap" writes).
Proof.
  split.
  - unfold MapIdentityCalls.AddNodeGroup.
    destruct (NewFromClientSet_recording IsNotFound clientSet r log)
      as [(e & r1 & ->)|(acm & r1 & -> & Hc & Hd)].
    { eexists _, r1, []. rewrite app_nil_r. split; [done|].
      apply write_discipline_failed. }
    eapply save_after_recording; [|exact Hc].
    by apply AddIdentity_keeps.
  - unfold IamCalls.AddNodeGroup.
    destruct (NewFromClientSet_recording IsNotFound clientSet r log)
      as [(e & r1 & ->)|(acm & r1 & -> & Hc & Hd)].
    { eexists _, r1, []. rewrite app_nil_r. split; [done|].
      apply write_discipline_failed. }
    destruct (IamCalls.Parse (InstanceRoleARN ng)) as [arn|e].
    2:{ eexists _, r1, []. rewrite app_nil_r. split; [done|].
        apply write_discipline_failed. }
    destruct (IamCalls.NewIdentity arn RoleNodeGroupUsername RoleNodeGroupGroups)
      as [ident|e].
    2:{ eexists _, r1, []. rewrite app_nil_r. split; [done|].
        apply write_discipline_failed. }
    eapply save_after_recording; [|exact Hc].
    by apply iam_AddIdentity_keeps.
Qed.

(** X13. [RemoveNodeGroup], in both revisions and against any client: the
    same discipline of at most one write, none when it fails before [Save]
    (in particular when no stored identity matches).  Moreover an unset ARN
    ([MapIdentity] revision) or an ARN that does not parse ([iam.Identity]
    revision) is refused before the client is used at all. *)
Theorem RemoveNodeGroup_writes_once {R : Type}
    `{!YAML MapIdentityRev.MapIdentity}
    `{!IamRev.IAM} `{!IamCalls.IAMConstructors} `{!YAML IamRev.Identity}
    (IsNotFound : error → bool) (clientSet : ClientSet R) (ng : NodeGroup)
    (r : R) (log : list call) :
  (∃ out r' writes,
      MapIdentityCalls.RemoveNodeGroup IsNotFound (recording_set clientSet) ng
        (r, log)
      = (Completed out, (r', log ++ writes))
      ∧ write_discipline out "updating auth ConfigMap after removing role"
          writes)
  ∧ (∃ out r' writes,
        IamCalls.RemoveNodeGroup IsNotFound (recording_set clientSet) ng (r, log)
        = (Completed out, (r', log ++ writes))
        ∧ write_discipline out "updating auth ConfigMap after removing role"
            writes)
  ∧ (InstanceRoleARN ng = "" →
     MapIdentityCalls.RemoveNodeGroup IsNotFound clientSet ng r
     = (Completed (Some (FailedNew "nodegroup instance role ARN is not set")),
        r))
  ∧ (∀ e, IamCalls.Parse (InstanceRoleARN ng) = Err e →
          IamCalls.RemoveNodeGroup IsNotFound clientSet ng r
          = (Completed
               (Some (Failed
                        (ErrWrap e "nodegroup instance role ARN is invalid"))),
             r)).
Proof.
  split; [|split; [|split]].
  - unfold MapIdentityCalls.RemoveNodeGroup.
    destruct (decide (InstanceRoleARN ng = "")).
    { eexists _, r, []. rewrite app_nil_r. split; [done|].
      apply write_discipline_failed. }
    destruct (NewFromClientSet_recording IsNotFound clientSet r log)
      as [(e & r1 & ->)|(acm & r1 & -> & Hc & Hd)].
    { eexists _, r1, []. rewrite app_nil_r. split; [done|].
      apply write_discipline_failed. }
    eapply save_after_recording; [|exact Hc].
    by apply RemoveIdentity_keeps.
  - unfold IamCalls.RemoveNodeGroup.
    destruct (IamCalls.Parse (InstanceRoleARN ng)) as [arn|e].
    2:{ eexists _, r, []. rewrite app_nil_r. split; [done|].
        apply write_discipline_failed. }
    destruct (NewFromClientSet_recording IsNotFound clientSet r log)
      as [(e & r1 & ->)|(acm & r1 & -> & Hc & Hd)].
    { eexists _, r1, []. rewrite app_nil_r. split; [done|].
      apply write_discipline_failed. }
    eapply save_after_recording; [|exact Hc].
    by apply iam_RemoveIdentity_keeps.
  - intros Hunset. unfold MapIdentityCalls.RemoveNodeGroup.
    by destruct (decide (InstanceRoleARN ng = "")).
  - intros e He. unfold IamCalls.RemoveNodeGroup. by rewrite He.
Qed.

(** ** The node-group operations against a cluster that stores *)

Section ClusterFacts.
Import IamRev IamFacts.
Context `{!IAM} `{!YAML Identity}.

Lemma stores_same_Data {R1 R2 : Type} (a : AuthConfigMap R1)
    (b : AuthConfigMap R2) (roles users : list Identity) :
  Data (cm a) = Data (cm b) → stores a roles users → stores b roles users.
Proof. unfold stores, Data_at. by intros ->. Qed.

Lemma snapshot_same_Data {R1 R2 : Type} (a : AuthConfigMap R1)
    (b : AuthConfigMap R2) (roles users : list Identity) :
  Data (cm a) = Data (cm b) → snapshot a roles users → snapshot b roles users.
Proof.
  intros Heq (Hs & Hr & Hu & Hd).
  split; [by apply (stores_same_Data a b)|].
  split; [done|]. split; [done|]. by rewrite <- Heq.
Qed.

Lemma classified_files_once (r : Identity) :
  classified r → filter files_as_role [r] ++ filter files_as_user [r] = [r].
Proof.
  intros Hclass. unfold classified in Hclass.
  destruct (files_as_role r) eqn:Hrole.
  - rewrite (filter_all (λ i, files_as_role i) [r])
      by (apply Forall_singleton; by rewrite Hrole).
    rewrite (filter_none (λ i, files_as_user i) [r]); [done|].
    apply Forall_singleton. intros Hu. apply (files_excl r); [|done].
    by rewrite Hrole.
  - simpl in Hclass.
    rewrite (filter_all (λ i, files_as_user i) [r])
      by (by apply Forall_singleton).
    rewrite (filter_none (λ i, files_as_role i) [r]); [done|].
    apply Forall_singleton. intros Hr. by rewrite Hrole in Hr.
Qed.

Lemma cluster_fetch_nothing :
  NewFromClientSet is_not_found cluster None
  = (Ok (New (ConfigMaps cluster ObjectNamespace) None), None).
Proof. reflexivity. Qed.

Lemma cluster_fetch_held (held : ConfigMap) :
  NewFromClientSet is_not_found cluster (Some held)
  = (Ok (New (ConfigMaps cluster ObjectNamespace) (Some held)), Some held).
Proof. reflexivity. Qed.
End ClusterFacts.

(** X14. Against a cluster that holds no ConfigMap yet, [AddNodeGroup] of a
    node group whose instance role ARN parses and gives a valid identity that
    the YAML library keeps creates the ConfigMap (it gets a UID), and a fetch
    then lists exactly that identity: the ARN with the node username and the
    two node groups.  [RemoveNodeGroup] of the same node group then updates
    that ConfigMap, metadata unchanged, and a fetch lists no identity.  These
    are the operations of the [iam.Identity] revision. *)
Theorem node_group_added_then_removed
    `{!IamRev.IAM} `{!IamCalls.IAMConstructors} `{!YAML IamRev.Identity}
    (keeps : IamRev.Identity → Prop) `{!YAMLKeeps IamRev.Identity keeps}
    (ng : NodeGroup) (arn : IamRev.ARN) (r : IamRev.Identity) :
  IamCalls.Parse (InstanceRoleARN ng) = Ok arn →
  IamCalls.NewIdentity arn RoleNodeGroupUsername RoleNodeGroupGroups = Ok r →
  IamRev.Identity_Valid r = None →
  IamFacts.classified r →
  IamFacts.matches arn r = true →
  keeps r →
  ∃ held1 held2 acm1 acm2,
    IamCalls.AddNodeGroup is_not_found cluster ng None
    = (Completed None, Some held1)
    ∧ UID (cm_ObjectMeta held1) ≠ ""
    ∧ NewFromClientSet is_not_found cluster (Some held1)
      = (Ok acm1, Some held1)
    ∧ Identities acm1 = Ok [r]
    ∧ IamCalls.RemoveNodeGroup is_not_found cluster ng (Some held1)
      = (Completed None, Some held2)
    ∧ cm_ObjectMeta held2 = cm_ObjectMeta held1
    ∧ NewFromClientSet is_not_found cluster (Some held2)
      = (Ok acm2, Some held2)
    ∧ Identities (A:=IamRev.Identity) acm2 = Ok [].
Proof.
  intros Hparse Hnew Hvalid Hclass Hmatch Hkept.
  set (c := ConfigMaps cluster ObjectNamespace).
  assert (IamFacts.snapshot (New c None) [] []) as Hsnap0.
  { split; [apply (stores_New_kept keeps) | by repeat split]. }
  (* adding *)
  destruct (IamFacts.iam_AddIdentity_kept keeps (New c None) [] [] r Hsnap0
              Hvalid Hclass Hkept) as (a1 & Hadd & Hsnap1 & _ & Hm1).
  cbn [app] in Hsnap1.
  destruct (iam_AddIdentity_keeps (New c None) r)
    as (err & a1' & Hadd' & Hc1 & _ & Hd1 & _); [done|].
  rewrite Hadd in Hadd'. injection Hadd' as <- <-.
  destruct a1 as [c1 [meta1 [m1|]]]; [|done]. simpl in Hc1, Hm1.
  subst c1 meta1.
  set (held1 := mkConfigMap
                  (mkObjectMeta ObjectName ObjectNamespace
                     "18b9e60c-2057-11e7-8868-0eba8ef9df1a") (Some m1)).
  assert (IamFacts.snapshot (mkAuthConfigMap c held1)
            (filter IamFacts.files_as_role [r])
            (filter IamFacts.files_as_user [r])) as Hsnap1'.
  { by apply (snapshot_same_Data _ _ _ _ eq_refl Hsnap1). }
  (* removing *)
  destruct (IamFacts.iam_RemoveIdentity_first_kept keeps
              (mkAuthConfigMap c held1) _ _ arn [] r [] Hsnap1')
    as (a2 & roles2 & users2 & Hrm & Hsnap2 & Hids2 & _ & Hm2);
    [by apply classified_files_once | done | done |].
  destruct (iam_RemoveIdentity_keeps (mkAuthConfigMap c held1) arn false)
    as (err & a2' & Hrm' & Hc2 & _ & Hd2 & _); [done|].
  rewrite Hrm in Hrm'. injection Hrm' as <- <-.
  destruct a2 as [c2 [meta2 [m2|]]]; [|done]. simpl in Hc2, Hm2.
  subst c2 meta2.
  exists held1, (mkConfigMap (cm_ObjectMeta held1) (Some m2)).
  exists (mkAuthConfigMap c held1),
         (mkAuthConfigMap c (mkConfigMap (cm_ObjectMeta held1) (Some m2))).
  split.
  { unfold IamCalls.AddNodeGroup.
    rewrite cluster_fetch_nothing, Hparse, Hnew. fold c. by rewrite Hadd. }
  split; [done|]. split; [by rewrite cluster_fetch_held|].
  split.
  { rewrite (Identities_stores _ _ _ (proj1 Hsnap1')).
    by rewrite classified_files_once. }
  split.
  { unfold IamCalls.RemoveNodeGroup.
    rewrite Hparse, cluster_fetch_held. fold c.
    change (New c (Some held1)) with (mkAuthConfigMap c held1).
    by rewrite Hrm. }
  split; [done|]. split; [by rewrite cluster_fetch_held|].
  pose proof (Identities_stores _ _ _ (proj1 Hsnap2)) as Hlist.
  rewrite Hids2 in Hlist. exact Hlist.
Qed.

(** * The operations on concrete stores *)

Module Examples.
Import Wire IamModel WireFacts Utf8 Utf8Facts JSONWire.

Definition empty_store : AuthConfigMap unit := New stamping None.

(** A store whose three keys hold the text of the lists, the identities as
    the [iam.Identity] revision reads them. *)
Definition store_of (roles users : list IdentityRecord)
    (accs : list string) : AuthConfigMap unit :=
  mkAuthConfigMap stamping
    (mkConfigMap ObjectMeta
       (Some (<[accountsData := put_list put_string accs]>
                (<[usersData := put_list put_IdentityRecord users]>
                   (<[rolesData := put_list put_IdentityRecord roles]> ∅))))).

Definition node_groups : list string := ["system:bootstrappers"; "system:nodes"].

Definition nodes : MapIdentityRev.MapIdentity :=
  MapIdentityRev.mkMapIdentity
    (MapIdentityRev.mkIdentity "system:node:{{EC2PrivateDNSName}}" node_groups)
    "arn:aws:iam::123456:role:nodes".

Definition builders : MapIdentityRev.MapIdentity :=
  MapIdentityRev.mkMapIdentity
    (MapIdentityRev.mkIdentity "builder" ["system:masters"])
    "arn:aws:iam::123456:role:builders".

Definition alice : MapIdentityRev.MapIdentity :=
  MapIdentityRev.mkMapIdentity
    (MapIdentityRev.mkIdentity "alice" ["system:masters"])
    "arn:aws:iam::123456:user:alice".

(** The same records as package [pkg/iam] models them. *)
Definition record (m : MapIdentityRev.MapIdentity) : IdentityRecord :=
  mkIdentityRecord (MapIdentityRev.ARN m)
    (MapIdentityRev.Username (MapIdentityRev.MapIdentity_Identity m))
    (MapIdentityRev.Groups (MapIdentityRev.MapIdentity_Identity m)).

Definition parsed (raw : string) : PrincipalIdentifier :=
  mkPrincipal (Split ":" raw).

Definition mapped : AuthConfigMap unit :=
  store_of [record nodes; record builders] [record alice] ["100"].

(** The same records as the [MapIdentity] revision reads them, the ARNs
    under [rolearn] and [userarn]. *)
Definition kube : AuthConfigMap unit := listing [nodes; builders] [alice] ["100"].

(** The end-to-end account example of the specification. *)
Example accounts_300_100_200 :
  ∃ a1 a2 a3, AddAccount empty_store "300" = Returns None a1
              ∧ AddAccount a1 "100" = Returns None a2
              ∧ AddAccount a2 "200" = Returns None a3
              ∧ accounts a3 = Ok ["100"; "200"; "300"].
Proof. by eexists _, _, _. Qed.

Definition unsorted : AuthConfigMap unit := store_of [] [] ["300"; "100"; "300"].

Ltac by_evaluation :=
  split; [by split|];
  split; [by repeat constructor|]; split; [by repeat constructor | done].

(** C6 as stated fails on a store that already lists the account: the
    account "111" is a member before the two calls and is gone after. *)
Lemma AddAccount_RemoveAccount_counterexample :
  accounts (store_of [] [] ["111"]) = Ok ["111"]
  ∧ ∃ a1 a2, AddAccount (store_of [] [] ["111"]) "111" = Returns None a1
             ∧ RemoveAccount a1 "111" = Returns None a2
             ∧ accounts a2 = Ok []
             ∧ accounts a2 ≠ accounts (store_of [] [] ["111"]).
Proof.
  split; [reflexivity|]. eexists _, _.
  split; [reflexivity|]. split; [reflexivity|]. split; [reflexivity|].
  discriminate.
Qed.

Lemma AddAccount_RemoveAccount_witness :
  Data (cm mapped) ≠ None
  ∧ accounts mapped = Ok ["100"]
  ∧ ("111" ∉ ["100"])
  ∧ intact coerce "111"
  ∧ ∃ a1 a2, AddAccount mapped "111" = Returns None a1
             ∧ RemoveAccount a1 "111" = Returns None a2
             ∧ accounts a2 = Ok (List (NewString ["100"]))
             ∧ (∀ x, x ∈ List (NewString ["100"]) ↔ x ∈ ["100"])
             ∧ (StronglySorted String.le ["100"] → NoDup ["100"] →
                accounts a2 = accounts mapped).
Proof.
  assert ("111" ∉ ["100"]) as Hnew.
  { apply not_elem_of_cons. split; [done | apply not_elem_of_nil]. }
  split; [done|]. split; [reflexivity|]. split; [exact Hnew|].
  split; [reflexivity|].
  apply (AddAccount_RemoveAccount (intact coerce) mapped "111" ["100"]);
    [done | reflexivity | exact Hnew | reflexivity].
Defined.

Lemma RemoveIdentity_all_matches_witness :
  IamFacts.snapshot mapped [record nodes; record builders] [record alice]
  ∧ (∃ a', IamRev.RemoveIdentity mapped
             (parsed "arn:aws:iam::123456:role:nodes") true = Returns None a'
           ∧ Identities a' = Ok [record builders; record alice])
  ∧ (∃ a', IamRev.RemoveIdentity mapped
             (parsed "arn:aws:iam::123456:role:admins") true = Returns None a'
           ∧ Identities (A:=IdentityRecord) a' = Identities mapped).
Proof.
  assert (IamFacts.snapshot mapped [record nodes; record builders]
            [record alice]) as Hiam.
  { by_evaluation. }
  split; [exact Hiam|]. split.
  - destruct (RemoveIdentity_all_matches (H:=iam) (intact coerce_record)
                mapped _ _ (parsed "arn:aws:iam::123456:role:nodes") Hiam)
      as (a' & Hrun & Hids & _).
    exists a'. split; [exact Hrun | exact Hids].
  - destruct (RemoveIdentity_all_matches (H:=iam) (intact coerce_record)
                mapped _ _ (parsed "arn:aws:iam::123456:role:admins") Hiam)
      as (a' & Hrun & _ & Hsame).
    exists a'. split; [exact Hrun|]. apply Hsame. by repeat constructor.
Defined.

Definition roles_only : AuthConfigMap unit :=
  store_of [record nodes; record builders] [] [].

Definition fresh : ConfigMap := mkConfigMap ObjectMeta (Some ∅).
Definition existing : ConfigMap :=
  mkConfigMap (mkObjectMeta ObjectName ObjectNamespace "0eba8ef9df1a") (Some ∅).

Lemma Save_creates_or_updates_witness :
  UID (cm_ObjectMeta fresh) = ""
  ∧ UID (cm_ObjectMeta existing) ≠ ""
  ∧ Save (mkAuthConfigMap (recording stamping) fresh) (tt, [])
    = (Returns None
         (mkAuthConfigMap (recording stamping)
            (mkConfigMap
               (mkObjectMeta ObjectName ObjectNamespace
                  "18b9e60c-2057-11e7-8868-0eba8ef9df1a") (Some ∅))),
       (tt, [CallCreate fresh]))
  ∧ Save (mkAuthConfigMap (recording stamping) existing) (tt, [])
    = (Returns None (mkAuthConfigMap (recording stamping) existing),
       (tt, [CallUpdate existing])).
Proof.
  split; [reflexivity|]. split; [discriminate|].
  split.
  - apply (proj1 (Save_creates_or_updates stamping fresh tt [])). reflexivity.
  - apply (proj2 (Save_creates_or_updates stamping existing tt [])).
    discriminate.
Defined.

Definition admins : MapIdentityRev.MapIdentity :=
  MapIdentityRev.mkMapIdentity
    (MapIdentityRev.mkIdentity "admin" ["system:masters"])
    "arn:aws:iam::123456:group/admins".

Lemma setIdentities_fails_on_unclassified_witness :
  record admins ∈ [record nodes; record admins; record alice]
  ∧ IamFacts.classified (record admins) = false
  ∧ Forall IamFacts.classified [record nodes]
  ∧ (∃ e, IamRev.setIdentities mapped
            [record nodes; record admins; record alice]
          = Returns (Some e) mapped)
  ∧ IamRev.setIdentities mapped [record nodes; record admins; record alice]
    = Returns (Some (ErrCannotDetermine "group/admins")) mapped.
Proof.
  assert (record admins ∈ [record nodes; record admins; record alice]) as Hin.
  { apply elem_of_cons. right. apply elem_of_cons. by left. }
  assert (Forall IamFacts.classified [record nodes]) as Hpre.
  { by repeat constructor. }
  split; [exact Hin|]. split; [reflexivity|]. split; [exact Hpre|].
  destruct (setIdentities_fails_on_unclassified (H:=iam) mapped
              [record nodes; record admins; record alice]) as [Hany Hfirst].
  split.
  - apply (Hany (record admins)); [exact Hin | reflexivity].
  - apply (Hfirst [record nodes] (record admins) [record alice]
             (parsed "arn:aws:iam::123456:group/admins"));
      [reflexivity | exact Hpre | reflexivity | reflexivity | reflexivity].
Defined.

Definition malformed : string := "arn:aws:iam:123456:role".

(** The parser of package [pkg/iam], as the specification describes it,
    rejects the same string; the [iam.Identity] revision of [AddIdentity]
    then writes nothing. *)
Lemma Parse_rejects_malformed :
  Parse malformed = Err (ErrIAM "fewer than six segments")
  ∧ IamRev.AddIdentity mapped (mkIdentityRecord malformed "x" [])
    = Returns (Some (ErrIAM "fewer than six segments")) mapped.
Proof. split; reflexivity. Qed.
End Examples.

(** * The further properties on concrete stores *)

Module Checks.
Import Wire IamModel WireFacts Utf8 Utf8Facts JSONWire Examples.

(** Modelled from the spec: [iam.Parse] and [iam.NewIdentity] of package
    [pkg/iam], which is absent from the source tree.  "NewIdentity fails if
    Classify(principal) is Unknown". *)
#[export] Instance iam_constructors : IamCalls.IAMConstructors :=
  {| IamCalls.Parse := Parse;
     IamCalls.NewIdentity p username groups :=
       match Classify p with
       | KindUnknown => Err (ErrCannotDetermine (Resource p))
       | _ => Ok (mkIdentityRecord (Format p) username groups)
       end |}.

Definition after_300 : AuthConfigMap unit :=
  match AddAccount (New stamping None) "300" with
  | Returns _ a => a
  | Panics => New stamping None
  end.

Definition corrupt : AuthConfigMap unit :=
  mkAuthConfigMap stamping
    (mkConfigMap ObjectMeta
       (Some (<[accountsData := "x"]> (<[rolesData := "x"]> ∅)))).

Definition nodes_again : MapIdentityRev.MapIdentity :=
  MapIdentityRev.mkMapIdentity
    (MapIdentityRev.mkIdentity "system:node:second" node_groups)
    "arn:aws:iam::123456:role:nodes".

Definition twice : AuthConfigMap unit :=
  store_of [record nodes; record builders; record nodes_again] [record alice] [].

Definition unset_pool : NodeGroup := mkNodeGroup "ng-2" "".

Lemma calls_keep_the_rest_witness :
  Data (cm mapped) ≠ None
  ∧ Data (cm kube) ≠ None
  ∧ returns_keeping [accountsData] mapped (AddAccount mapped "200")
  ∧ returns_keeping [rolesData; usersData] kube
      (MapIdentityRev.RemoveIdentity kube "arn:aws:iam::123456:role:nodes" true)
  ∧ returns_keeping [rolesData; usersData] mapped
      (IamRev.AddIdentity mapped (record alice)).
Proof.
  assert (Data (cm mapped) ≠ None) as Hd by done.
  assert (Data (cm kube) ≠ None) as Hk by done.
  split; [exact Hd|]. split; [exact Hk|].
  destruct (calls_keep_the_rest mapped Hd) as (H1 & _ & _ & _ & H5 & _).
  destruct (calls_keep_the_rest kube Hk) as (_ & _ & _ & H4 & _).
  split; [apply H1|]. split; [apply H4 | apply H5].
Defined.

Lemma after_New_calls_never_panic_witness :
  after_calls (New stamping None) after_300
  ∧ client after_300 = stamping
  ∧ cm_ObjectMeta (cm after_300) = cm_ObjectMeta (cm (New stamping None))
  ∧ Data (cm after_300) ≠ None
  ∧ ∀ o, call_on after_300 o → ∃ err a', o = Returns err a'.
Proof.
  assert (after_calls (New stamping None) after_300) as Hreach.
  { apply (after_one_more _ (New stamping None) None after_300);
      [apply after_no_call|].
    assert (AddAccount (New stamping None) "300" = Returns None after_300)
      as Hrun by reflexivity.
    rewrite <- Hrun. apply call_AddAccount. }
  split; [exact Hreach|].
  exact (after_New_calls_never_panic stamping None after_300 Hreach).
Defined.

Lemma RemoveAccount_removes_witness :
  Data (cm unsorted) ≠ None
  ∧ accounts unsorted = Ok ["300"; "100"; "300"]
  ∧ (∃ a', RemoveAccount unsorted "300" = Returns None a'
           ∧ accounts a' = Ok ["100"])
  ∧ RemoveAccount unsorted "200"
    = Returns (Some (ErrAccountNotFound "200")) unsorted.
Proof.
  split; [done|]. split; [reflexivity|].
  destruct (RemoveAccount_removes (intact coerce) unsorted "300"
              ["300"; "100"; "300"]) as [Hin _]; [done | reflexivity |].
  destruct (RemoveAccount_removes (intact coerce) unsorted "200"
              ["300"; "100"; "300"]) as [_ Hout]; [done | reflexivity |].
  split.
  - apply Hin. apply elem_of_cons. by left.
  - apply Hout. intros Hin200.
    repeat (apply elem_of_cons in Hin200 as [Heq|Hin200]; [discriminate Heq|]).
    by apply elem_of_nil in Hin200.
Defined.

Lemma missing_keys_read_as_empty_witness :
  Unmarshal (A:=string) "" = Ok []
  ∧ Unmarshal (A:=MapIdentityRev.MapIdentity) "" = Ok []
  ∧ Unmarshal (A:=IdentityRecord) "" = Ok []
  ∧ Data_at empty_store accountsData = ""
  ∧ Data_at empty_store rolesData = ""
  ∧ Data_at empty_store usersData = ""
  ∧ accounts empty_store = Ok []
  ∧ Identities (A:=MapIdentityRev.MapIdentity) empty_store = Ok []
  ∧ MapIdentityRev.RemoveIdentity empty_store "arn:aws:iam::123456:role:nodes"
      false
    = Returns (Some (ErrIdentityNotFound "arn:aws:iam::123456:role:nodes"))
        empty_store.
Proof.
  split; [reflexivity|]. split; [reflexivity|]. split; [reflexivity|].
  split; [reflexivity|]. split; [reflexivity|]. split; [reflexivity|].
  destruct (missing_keys_read_as_empty (H:=iam) empty_store) as [Hacc Hids];
    [reflexivity | reflexivity | reflexivity |].
  split; [apply Hacc; reflexivity|].
  destruct (Hids eq_refl eq_refl) as (H1 & _ & H3 & _).
  split; [exact H1 | apply H3].
Defined.

Lemma undecodable_key_blocks_calls_witness :
  Unmarshal (A:=string) (Data_at corrupt accountsData)
  = Err (ErrYAML "cannot unmarshal")
  ∧ decode_fails (A:=MapIdentityRev.MapIdentity) corrupt rolesData
      (ErrYAML "cannot unmarshal")
  ∧ AddAccount corrupt "100"
    = Returns
        (Some (ErrWrap (ErrYAML "cannot unmarshal") "unmarshalling mapAccounts"))
        corrupt
  ∧ MapIdentityRev.RemoveIdentity corrupt "arn:aws:iam::123456:role:nodes" true
    = Returns
        (Some (ErrWrapf (ErrYAML "cannot unmarshal") "unmarshalling %q"
                 rolesData))
        corrupt.
Proof.
  assert (decode_fails (A:=MapIdentityRev.MapIdentity) corrupt rolesData
            (ErrYAML "cannot unmarshal")) as Hfails.
  { left. split; reflexivity. }
  split; [reflexivity|]. split; [exact Hfails|].
  destruct (undecodable_key_blocks_calls corrupt rolesData
              (ErrYAML "cannot unmarshal")) as (Hacc & Hids & _).
  split; [apply (Hacc eq_refl "100") | apply (Hids Hfails)].
Defined.

Lemma resource_is_sixth_field_witness :
  Forall (λ s, Split ":" s = [s])
    ["arn"; "aws"; "iam"; ""; "123456"; "role"; "nodes"]
  ∧ MapIdentityRev.resource nodes = "role"
  ∧ MapIdentityRev.Role nodes = true
  ∧ MapIdentityRev.User nodes = false.
Proof.
  assert (Forall (λ s, Split ":" s = [s])
            ["arn"; "aws"; "iam"; ""; "123456"; "role"; "nodes"]) as Hfields.
  { by repeat constructor. }
  split; [exact Hfields|].
  exact (resource_is_sixth_field
           ["arn"; "aws"; "iam"; ""; "123456"; "role"; "nodes"]
           (MapIdentityRev.MapIdentity_Identity nodes) Hfields).
Defined.

Lemma RemoveNodeGroup_writes_once_witness :
  InstanceRoleARN unset_pool = ""
  ∧ IamCalls.Parse (InstanceRoleARN unset_pool)
    = Err (ErrIAM "fewer than six segments")
  ∧ MapIdentityCalls.RemoveNodeGroup is_not_found cluster unset_pool None
    = (Completed (Some (FailedNew "nodegroup instance role ARN is not set")),
       None)
  ∧ IamCalls.RemoveNodeGroup is_not_found cluster unset_pool None
    = (Completed
         (Some (Failed
                  (ErrWrap (ErrIAM "fewer than six segments")
                     "nodegroup instance role ARN is invalid"))),
       None).
Proof.
  split; [reflexivity|]. split; [reflexivity|].
  destruct (RemoveNodeGroup_writes_once is_not_found cluster unset_pool None [])
    as (_ & _ & Hunset & Hparse).
  split; [apply Hunset; reflexivity | apply Hparse; reflexivity].
Defined.

End Checks.

(** * Kept and coerced values on concrete stores *)

Module Utf8Checks.
Import IamModel Utf8 Utf8Facts Examples Checks.

(** The byte 0xff begins no UTF-8 sequence. *)
Definition invalid : string := String "255" EmptyString.

Lemma AddAccount_normalizes_witness :
  Data (cm unsorted) ≠ None
  ∧ accounts unsorted = Ok ["300"; "100"; "300"]
  ∧ intact coerce "200"
  ∧ ∃ a' l, AddAccount unsorted "200" = Returns None a'
            ∧ accounts a' = Ok l
            ∧ StronglySorted String.le l ∧ NoDup l
            ∧ (∀ x, x ∈ l ↔ x ∈ ["300"; "100"; "300"] ∨ x = "200")
            ∧ AddAccount a' "200" = Returns None a'.
Proof.
  split; [done|]. split; [reflexivity|]. split; [reflexivity|].
  apply (AddAccount_normalizes (intact coerce) unsorted "200"
           ["300"; "100"; "300"]); [done | reflexivity | reflexivity].
Defined.

(** C5 as stated fails on an account that is not valid UTF-8: the store
    lists U+FFFD instead of the account, and adding the account a second time
    lists U+FFFD twice. *)
Lemma AddAccount_normalizes_counterexample :
  accounts empty_store = Ok []
  ∧ ∃ a1 a2, AddAccount empty_store invalid = Returns None a1
             ∧ accounts a1 = Ok [RuneError]
             ∧ (invalid ∉ [RuneError])
             ∧ AddAccount a1 invalid = Returns None a2
             ∧ accounts a2 = Ok [RuneError; RuneError]
             ∧ ¬ NoDup [RuneError; RuneError]
             ∧ accounts a2 ≠ accounts a1.
Proof.
  split; [reflexivity|]. eexists _, _.
  split; [reflexivity|]. split; [reflexivity|].
  split.
  { intros Hin. apply list_elem_of_singleton in Hin. discriminate Hin. }
  split; [reflexivity|]. split; [reflexivity|].
  split.
  { intros Hnodup. apply NoDup_cons in Hnodup as [Hnotin _].
    apply Hnotin. apply elem_of_cons. by left. }
  intros Heq. vm_compute in Heq. discriminate Heq.
Qed.

(** The same account is then not found by [RemoveAccount]: what the store
    lists is U+FFFD. *)
Example invalid_account_is_not_removed :
  ∃ a1, AddAccount empty_store invalid = Returns None a1
        ∧ RemoveAccount a1 invalid
          = Returns (Some (ErrAccountNotFound invalid)) a1.
Proof. eexists. split; reflexivity. Qed.

Lemma AddAccount_commutes_witness :
  Data (cm mapped) ≠ None
  ∧ accounts mapped = Ok ["100"]
  ∧ intact coerce "300" ∧ intact coerce "200"
  ∧ ∃ a1 b1 a2, AddAccount mapped "300" = Returns None a1
                ∧ AddAccount a1 "200" = Returns None a2
                ∧ AddAccount mapped "200" = Returns None b1
                ∧ AddAccount b1 "300" = Returns None a2.
Proof.
  split; [done|]. split; [reflexivity|].
  split; [reflexivity|]. split; [reflexivity|].
  apply (AddAccount_commutes (intact coerce) mapped "300" "200" ["100"]);
    [done | reflexivity | reflexivity | reflexivity].
Defined.

(** The node-group identity of the specification's end-to-end example. *)
Definition workers_arn : string := "arn:aws:iam::123:role/nodes".

Definition workers : IamModel.IdentityRecord :=
  IamModel.mkIdentityRecord workers_arn RoleNodeGroupUsername RoleNodeGroupGroups.

Definition workers_pool : NodeGroup := mkNodeGroup "ng-1" workers_arn.

Lemma AddIdentity_then_RemoveIdentity_witness :
  IamFacts.snapshot roles_only [record nodes; record builders] []
  ∧ IamRev.Identity_Valid workers = None
  ∧ IamFacts.classified workers
  ∧ IamFacts.matches (parsed workers_arn) workers = true
  ∧ intact coerce_record workers
  ∧ Forall (λ j, IamFacts.matches (parsed workers_arn) j = false)
      ([record nodes; record builders] ++ [])
  ∧ ∃ a1 a2,
      IamRev.AddIdentity roles_only workers = Returns None a1
      ∧ IamRev.RemoveIdentity a1 (parsed workers_arn) false = Returns None a2
      ∧ Identities a2 = Ok ([record nodes; record builders] ++ [])
      ∧ Identities (A:=IamModel.IdentityRecord) a2 = Identities roles_only.
Proof.
  assert (IamFacts.snapshot roles_only [record nodes; record builders] [])
    as Hsnap by by_evaluation.
  assert (Forall (λ j, IamFacts.matches (parsed workers_arn) j = false)
            ([record nodes; record builders] ++ [])) as Hnew.
  { by repeat constructor. }
  split; [exact Hsnap|]. split; [reflexivity|]. split; [done|].
  split; [reflexivity|]. split; [reflexivity|]. split; [exact Hnew|].
  apply (AddIdentity_then_RemoveIdentity (H:=IamModel.iam)
           (intact coerce_record) roles_only
           [record nodes; record builders] [] workers (parsed workers_arn));
    [exact Hsnap | reflexivity | done | reflexivity | reflexivity | exact Hnew].
Defined.

Lemma RemoveIdentity_all_leaves_none_witness :
  IamFacts.snapshot twice
    [record nodes; record builders; record nodes_again] [record alice]
  ∧ ∃ a' (ids : list IamModel.IdentityRecord),
      IamRev.RemoveIdentity twice (parsed "arn:aws:iam::123456:role:nodes") true
      = Returns None a'
      ∧ Identities a' = Ok ids
      ∧ filter
          (λ j, IamFacts.matches (parsed "arn:aws:iam::123456:role:nodes") j
                = true) ids = []
      ∧ IamRev.RemoveIdentity a' (parsed "arn:aws:iam::123456:role:nodes") false
        = Returns (Some (ErrIdentityNotFound "arn:aws:iam::123456:role:nodes"))
            a'
      ∧ ∃ a'', IamRev.RemoveIdentity a'
                 (parsed "arn:aws:iam::123456:role:nodes") true
               = Returns None a''
               ∧ Identities a'' = Ok ids.
Proof.
  assert (IamFacts.snapshot twice
            [record nodes; record builders; record nodes_again] [record alice])
    as Hsnap by by_evaluation.
  split; [exact Hsnap|].
  exact (RemoveIdentity_all_leaves_none (H:=IamModel.iam)
           (intact coerce_record) twice _ _
           (parsed "arn:aws:iam::123456:role:nodes") Hsnap).
Defined.

Lemma RemoveIdentity_removes_one_witness :
  IamFacts.snapshot twice
    [record nodes; record builders; record nodes_again] [record alice]
  ∧ filter
      (λ j, IamFacts.matches (parsed "arn:aws:iam::123456:role:nodes") j = true)
      ([record nodes; record builders; record nodes_again] ++ [record alice])
    = record nodes :: [record nodes_again]
  ∧ ∃ a' (ids : list IamModel.IdentityRecord),
      IamRev.RemoveIdentity twice (parsed "arn:aws:iam::123456:role:nodes") false
      = Returns None a'
      ∧ Identities a' = Ok ids
      ∧ S (length ids)
        = length ([record nodes; record builders; record nodes_again]
                  ++ [record alice])
      ∧ filter
          (λ j, IamFacts.matches (parsed "arn:aws:iam::123456:role:nodes") j
                = true) ids
        = [record nodes_again].
Proof.
  assert (IamFacts.snapshot twice
            [record nodes; record builders; record nodes_again] [record alice])
    as Hsnap by by_evaluation.
  split; [exact Hsnap|]. split; [reflexivity|].
  exact (RemoveIdentity_removes_one (H:=IamModel.iam)
           (intact coerce_record) twice _ _
           (parsed "arn:aws:iam::123456:role:nodes") (record nodes)
           [record nodes_again] Hsnap eq_refl).
Defined.

Lemma node_group_added_then_removed_witness :
  IamCalls.Parse (InstanceRoleARN workers_pool) = Ok (parsed workers_arn)
  ∧ IamCalls.NewIdentity (parsed workers_arn) RoleNodeGroupUsername
      RoleNodeGroupGroups = Ok workers
  ∧ IamRev.Identity_Valid workers = None
  ∧ IamFacts.classified workers
  ∧ IamFacts.matches (parsed workers_arn) workers = true
  ∧ intact coerce_record workers
  ∧ ∃ held1 held2 acm1 acm2,
      IamCalls.AddNodeGroup is_not_found cluster workers_pool None
      = (Completed None, Some held1)
      ∧ UID (cm_ObjectMeta held1) ≠ ""
      ∧ NewFromClientSet is_not_found cluster (Some held1)
        = (Ok acm1, Some held1)
      ∧ Identities acm1 = Ok [workers]
      ∧ IamCalls.RemoveNodeGroup is_not_found cluster workers_pool (Some held1)
        = (Completed None, Some held2)
      ∧ cm_ObjectMeta held2 = cm_ObjectMeta held1
      ∧ NewFromClientSet is_not_found cluster (Some held2)
        = (Ok acm2, Some held2)
      ∧ Identities (A:=IamModel.IdentityRecord) acm2 = Ok [].
Proof.
  split; [reflexivity|]. split; [reflexivity|]. split; [reflexivity|].
  split; [done|]. split; [reflexivity|]. split; [reflexivity|].
  apply (node_group_added_then_removed (H:=IamModel.iam)
           (intact coerce_record) workers_pool
           (parsed workers_arn) workers);
    [reflexivity | reflexivity | reflexivity | done | reflexivity | reflexivity].
Defined.
End Utf8Checks.

(** * The [MapIdentity] revision on stores in the form of the aws-auth ConfigMap *)

Module JSONChecks.
Import MapIdentityJSON JSONWire JSONWireFacts IamModel WireFacts Utf8 Utf8Facts
  Examples.

Definition role_a : MapIdentityRev.MapIdentity :=
  MapIdentityRev.mkMapIdentity
    (MapIdentityRev.mkIdentity "a" ["system:masters"]) "arn:aws:iam::123:role/a".

Definition role_b : MapIdentityRev.MapIdentity :=
  MapIdentityRev.mkMapIdentity
    (MapIdentityRev.mkIdentity "b" ["system:masters"]) "arn:aws:iam::123:role/b".

Definition user_c : MapIdentityRev.MapIdentity :=
  MapIdentityRev.mkMapIdentity
    (MapIdentityRev.mkIdentity "c" ["system:masters"]) "arn:aws:iam::123:user/c".

Definition slashed : AuthConfigMap unit := listing [role_a; role_b] [user_c] [].

Lemma mutation_splits_by_kind_witness :
  Data (cm kube) ≠ None
  ∧ Data (cm mapped) ≠ None
  ∧ (∃ a', MapIdentityRev.AddIdentity kube "arn:aws:iam::123456:user:bob" "bob" []
           = Returns None a'
           ∧ MapIdentityFacts.written_by_kind a')
  ∧ intact coerce_record (record alice)
  ∧ (∃ err a',
        IamRev.AddIdentity mapped (record alice) = Returns err a'
        ∧ (err = None → IamFacts.kind_split a')
        ∧ (err ≠ None → a' = mapped))
  ∧ (∃ err a',
        IamRev.RemoveIdentity mapped
          (parsed "arn:aws:iam::123456:role:builders") false
        = Returns err a'
        ∧ (err = None → IamFacts.kind_split a')
        ∧ (err ≠ None → a' = mapped)).
Proof.
  assert (Data (cm kube) ≠ None) as Hkube by done.
  assert (Data (cm mapped) ≠ None) as Hmapped by done.
  split; [exact Hkube|]. split; [exact Hmapped|]. split; [|split; [|split]].
  - destruct (mutation_splits_by_kind (H:=iam) (intact coerce_record) kube Hkube)
      as (Hadd & _).
    destruct (Hadd "arn:aws:iam::123456:user:bob" "bob" [])
      as (err & a' & Hrun & Hsplit).
    assert (∃ a0, MapIdentityRev.AddIdentity kube
                    "arn:aws:iam::123456:user:bob" "bob" [] = Returns None a0)
      as [a0 Ha0] by (by eexists).
    rewrite Ha0 in Hrun. injection Hrun as <- <-.
    exists a0. split; [exact Ha0 | by apply Hsplit].
  - reflexivity.
  - destruct (mutation_splits_by_kind (H:=iam) (intact coerce_record) mapped Hmapped)
      as (_ & _ & Hadd & _).
    apply Hadd. reflexivity.
  - destruct (mutation_splits_by_kind (H:=iam) (intact coerce_record) mapped Hmapped)
      as (_ & _ & _ & Hremove).
    apply Hremove.
Defined.

Lemma RemoveIdentity_first_match_witness :
  stores kube [nodes; builders] [alice]
  ∧ Forall (λ m, MapIdentityRev.ARN m ≠ "arn:aws:iam::123456:role:admins")
      ([nodes; builders] ++ [alice])
  ∧ IamFacts.snapshot mapped [record nodes; record builders] [record alice]
  ∧ MapIdentityRev.RemoveIdentity kube "arn:aws:iam::123456:role:admins" false
    = Returns (Some (ErrIdentityNotFound "arn:aws:iam::123456:role:admins"))
        kube
  ∧ (∃ a', IamRev.RemoveIdentity mapped
             (parsed "arn:aws:iam::123456:user:alice") false = Returns None a'
           ∧ Identities a' = Ok ([record nodes; record builders] ++ [])
           ∧ Data_at a' accountsData = Data_at mapped accountsData
           ∧ cm_ObjectMeta (cm a') = cm_ObjectMeta (cm mapped))
  ∧ IamRev.RemoveIdentity mapped (parsed "arn:aws:iam::123456:role:admins") false
    = Returns (Some (ErrIdentityNotFound "arn:aws:iam::123456:role:admins"))
        mapped.
Proof.
  assert (stores kube [nodes; builders] [alice]) as Hstores by (by split).
  assert (Forall (λ m, MapIdentityRev.ARN m ≠ "arn:aws:iam::123456:role:admins")
            ([nodes; builders] ++ [alice])) as Hnone by (by repeat constructor).
  assert (IamFacts.snapshot mapped [record nodes; record builders]
            [record alice]) as Hiam.
  { by_evaluation. }
  split; [exact Hstores|]. split; [exact Hnone|]. split; [exact Hiam|].
  split; [|split].
  - destruct (RemoveIdentity_first_match (H:=iam) (intact coerce_record) kube)
      as [Hmap _].
    exact (Hmap _ _ "arn:aws:iam::123456:role:admins" Hstores Hnone).
  - destruct (RemoveIdentity_first_match (H:=iam) (intact coerce_record) mapped)
      as [_ Hrec].
    apply (proj1 (Hrec _ _ (parsed "arn:aws:iam::123456:user:alice") Hiam)
             [record nodes; record builders] (record alice) []);
      [done | by repeat constructor | done].
  - destruct (RemoveIdentity_first_match (H:=iam) (intact coerce_record) mapped)
      as [_ Hrec].
    apply (proj2 (Hrec _ _ (parsed "arn:aws:iam::123456:role:admins") Hiam)).
    by repeat constructor.
Defined.



Lemma MapIdentity_calls_file_by_own_kind_witness :
  Data (cm slashed) ≠ None
  ∧ Identities slashed = Ok [role_a; role_b; user_c]
  ∧ Forall (λ m, MapIdentityRev.Role m = false ∧ MapIdentityRev.User m = false)
      [role_a; role_b; user_c]
  ∧ (∃ a', MapIdentityRev.RemoveIdentity slashed "arn:aws:iam::123:role/a" false
           = Returns None a'
           ∧ Data_at a' rolesData = Wire.put_list put_raw []
           ∧ Data_at a' usersData = Wire.put_list put_raw []
           ∧ Data_at a' accountsData = Data_at slashed accountsData)
  ∧ (∃ a', MapIdentityRev.AddIdentity kube "arn:aws:iam::123:role/nodes"
             RoleNodeGroupUsername RoleNodeGroupGroups
           = Returns None a'
           ∧ Data_at a' rolesData
             = Wire.put_list put_raw (map Marshal_struct [nodes; builders])
           ∧ Data_at a' usersData
             = Wire.put_list put_raw (map Marshal_struct [alice])
           ∧ Data_at a' accountsData = Data_at kube accountsData).
Proof.
  split; [done|]. split; [reflexivity|]. split; [by repeat constructor|].
  split.
  - destruct (MapIdentity_calls_file_by_own_kind slashed
                [role_a; role_b; user_c]) as (_ & _ & Hfirst & _);
      [done | reflexivity |].
    apply (Hfirst "arn:aws:iam::123:role/a" [] role_a [role_b; user_c]);
      [reflexivity | constructor | reflexivity | reflexivity | reflexivity].
  - destruct (MapIdentity_calls_file_by_own_kind kube
                [nodes; builders; alice]) as (Hadd & _);
      [done | reflexivity |].
    apply (Hadd "arn:aws:iam::123:role/nodes" RoleNodeGroupUsername
             RoleNodeGroupGroups); reflexivity.
Defined.

Lemma MapIdentity_written_is_not_read_witness :
  (∀ m, intact coerce_raw (Marshal_struct m))
  ∧ MapIdentityJSONFacts.struct_has_no_arn_key
  ∧ Data (cm kube) ≠ None
  ∧ Identities kube = Ok [nodes; builders; alice]
  ∧ MapIdentityRev.Role nodes
  ∧ ∃ a',
      MapIdentityRev.AddIdentity kube "arn:aws:iam::123456:role:nodes"
        "system:node:{{EC2PrivateDNSName}}" node_groups
      = Returns None a'
      ∧ Identities (A:=MapIdentityRev.MapIdentity) a'
        = Err (ErrWrapf (ErrYAML "error unmarshaling JSON: missing arn")
                 "unmarshalling %q" rolesData).
Proof.
  split; [exact Marshal_struct_intact|].
  split; [exact json_struct_has_no_arn_key|].
  split; [done|]. split; [reflexivity|]. split; [done|].
  destruct (MapIdentity_written_is_not_read (H:=json) (intact coerce_raw) kube)
    as [_ Hadd];
    [exact Marshal_struct_intact | exact json_struct_has_no_arn_key | done |].
  apply (Hadd [nodes; builders; alice] "arn:aws:iam::123456:role:nodes"
           "system:node:{{EC2PrivateDNSName}}" node_groups);
    [reflexivity | done].
Defined.
End JSONChecks.
